(** * RENTFREE backend: room directory and display-name registry

    A shallow embedding of [server.js]: the holder aggregation and ranking
    pipeline behind [GET /api/rooms], its single-slot cache, and the
    signature-gated [POST /api/display-name] handler, followed by the
    properties of the specification that concern them. *)

From Stdlib Require Import ZArith List Lia String Ascii DecimalString.
From Stdlib.Strings Require Import Byte.
From stdpp Require Import base option list sorting gmap.

Open Scope Z_scope.

(** ** JavaScript values used by the server *)

(** A JavaScript string is a sequence of UTF-16 code units, each in
    [0, 65535]; [s.length] is the number of code units and
    [s.charCodeAt(i)] the i-th of them. *)
Abbreviation jsstring := (list Z).

(** The code units of an ASCII literal of the source text. *)
Definition lit (s : string) : jsstring :=
  map (fun a => Z.of_nat (nat_of_ascii a)) (list_ascii_of_string s).

(** [x >>> 0]: conversion to an unsigned 32-bit integer. *)
Definition u32 (x : Z) : Z := x mod 2 ^ 32.

(** [a.slice(from, to)] on arrays, buffers and strings, for
    [0 <= from <= to]; both bounds are clamped to the length. *)
Definition slice {A} (from to : nat) (a : list A) : list A :=
  take (to - from) (drop from a).

(** [s.startsWith(p)]. *)
Fixpoint startsWith (s p : jsstring) : bool :=
  match p, s with
  | [], _ => true
  | _ :: _, [] => false
  | c :: p', d :: s' => (c =? d) && startsWith s' p'
  end.

(** [s.includes(p)]. *)
Fixpoint includes (s p : jsstring) : bool :=
  startsWith s p ||
  match s with
  | [] => false
  | _ :: s' => includes s' p
  end.

(** The value of a byte of a [Buffer] or [Uint8Array]. *)
Definition byte_val (b : byte) : Z := Z.of_N (Byte.to_N b).

(** The byte with value [z mod 256] (the [ToUint8] conversion that
    [new Uint8Array(numbers)] applies to each element). *)
Definition to_uint8 (z : Z) : byte :=
  match Byte.of_N (Z.to_N (z mod 256)) with
  | Some b => b
  | None => "000"%byte
  end.

(** ** CONFIG *)

Definition MAX_ROOMS : Z := 80.
Definition LANDLORD_TOP_N : Z := 10.
Definition CACHE_TTL_MS : Z := 30 * 1000.

(** ** hashToRoom *)

(** [hash] never exceeds [2^32 - 1], so [hash * 31 + charCode] stays below
    [2^53] and the double arithmetic of the source is exact integer
    arithmetic.  [%] is the truncating remainder.  (For [maxRooms = 0] the
    source yields [NaN]; the server only ever passes [MAX_ROOMS].) *)
Definition hashToRoom (wallet : jsstring) (maxRooms : Z) : Z :=
  let hash := fold_left (fun hash c => u32 (hash * 31 + c)) wallet 0 in
  Z.rem hash maxRooms + 1.

(** ** Numbers *)

(** The values of type Number that the pipeline produces: [Number(balance)]
    of a non-negative BigInt is a non-negative integer-valued double, or
    [Infinity] once the rounded value leaves the finite range. *)
Inductive number :=
  | Fin (v : Z)
  | PosInf.

Global Instance number_eq_dec : EqDecision number.
Proof. solve_decision. Defined.

(** Round-to-nearest, ties-to-even, to a 53-bit significand. *)
Definition round53 (n : Z) : Z :=
  if n <? 2 ^ 53 then n
  else
    let e := Z.log2 n - 52 in
    let q := Z.shiftr n e in
    let r := n - Z.shiftl q e in
    let half := 2 ^ (e - 1) in
    let q' := if (half <? r) || ((r =? half) && Z.odd q) then q + 1 else q in
    Z.shiftl q' e.

(** [Number(n)] for a BigInt [n >= 0]. *)
Definition Number_of_BigInt (n : Z) : number :=
  let v := round53 n in
  if v <? 2 ^ 1024 then Fin v else PosInf.

(** The decimal numeral of a non-negative integer. *)
Definition decimal (n : Z) : jsstring :=
  lit (NilZero.string_of_uint (N.to_uint (Z.to_N n))).

Fixpoint ndigits_aux (fuel : nat) (n : Z) : Z :=
  match fuel with
  | O => 0
  | S fuel' => if n <? 10 then 1 else 1 + ndigits_aux fuel' (n / 10)
  end.

(** The number of decimal digits of [n >= 0]. *)
Definition ndigits (n : Z) : Z := ndigits_aux (S (Z.to_nat (Z.log2 n))) n.

(** One round of the search of [Number::toString]: among the integers with
    at most [k] significant digits that convert back to [v], the one
    closest to [v] (the even digit string on a tie).  [d] is the number
    of digits of [v]. *)
Definition shortest_at (v d k : Z) : option Z :=
  let p := 10 ^ (d - k) in
  let lo := v / p * p in
  let hi := lo + p in
  let ok c := match Number_of_BigInt c with Fin w => w =? v | PosInf => false end in
  match ok lo, ok hi with
  | true, true =>
      if v - lo <? hi - v then Some lo
      else if hi - v <? v - lo then Some hi
      else if Z.even (v / p) then Some lo else Some hi
  | true, false => Some lo
  | false, true => Some hi
  | false, false => None
  end.

Fixpoint shortest_from (fuel : nat) (v d k : Z) : Z :=
  match fuel with
  | O => v
  | S fuel' =>
      match shortest_at v d k with
      | Some c => c
      | None => shortest_from fuel' v d (k + 1)
      end
  end.

(** The integer [s * 10^(n-k)] of [Number::toString]: the shortest digit
    string [s] (with [k] digits, [k] as small as possible) whose scaled
    value converts to [v]. *)
Definition shortest (v : Z) : Z :=
  let d := ndigits v in
  shortest_from (Z.to_nat d) v d 1.

Fixpoint strip_zeros (fuel : nat) (c : Z) : Z :=
  match fuel with
  | O => c
  | S fuel' => if (c mod 10 =? 0) && (0 <? c) then strip_zeros fuel' (c / 10) else c
  end.

(** [x.toString()] for the numbers above.  With [c = s * 10^(n-k)] and
    [n <= 21] the result, "the digits of s followed by n-k zeros", is the
    decimal numeral of [c]; beyond 21 digits the exponent form is used. *)
Definition Number_toString (x : number) : jsstring :=
  match x with
  | PosInf => lit "Infinity"
  | Fin v =>
      if v =? 0 then lit "0"
      else
        let c := shortest v in
        let n := ndigits c in
        if n <=? 21 then decimal c
        else
          let s := decimal (strip_zeros (Z.to_nat n) c) in
          match s with
          | [] => []
          | [d1] => d1 :: lit "e+" ++ decimal (n - 1)
          | d1 :: ds => d1 :: lit "." ++ ds ++ lit "e+" ++ decimal (n - 1)
          end
  end.

(** [new TextEncoder().encode(s)]: UTF-8, a surrogate pair encoding one
    code point and a lone surrogate encoding U+FFFD. *)
Definition utf8_of_code_point (c : Z) : list byte :=
  if c <? 128 then [to_uint8 c]
  else if c <? 2048 then
    [to_uint8 (Z.lor 192 (Z.shiftr c 6)); to_uint8 (Z.lor 128 (Z.land c 63))]
  else if c <? 65536 then
    [to_uint8 (Z.lor 224 (Z.shiftr c 12));
     to_uint8 (Z.lor 128 (Z.land (Z.shiftr c 6) 63));
     to_uint8 (Z.lor 128 (Z.land c 63))]
  else
    [to_uint8 (Z.lor 240 (Z.shiftr c 18));
     to_uint8 (Z.lor 128 (Z.land (Z.shiftr c 12) 63));
     to_uint8 (Z.lor 128 (Z.land (Z.shiftr c 6) 63));
     to_uint8 (Z.lor 128 (Z.land c 63))].

Definition is_high_surrogate (c : Z) : bool := (55296 <=? c) && (c <? 56320).
Definition is_low_surrogate (c : Z) : bool := (56320 <=? c) && (c <? 57344).

Fixpoint TextEncoder_encode (s : jsstring) : list byte :=
  match s with
  | [] => []
  | c :: s' =>
      if is_high_surrogate c then
        match s' with
        | c2 :: s'' =>
            if is_low_surrogate c2 then
              utf8_of_code_point (65536 + Z.shiftl (c - 55296) 10 + (c2 - 56320))
                ++ TextEncoder_encode s''
            else utf8_of_code_point 65533 ++ TextEncoder_encode s'
        | [] => utf8_of_code_point 65533
        end
      else if is_low_surrogate c then utf8_of_code_point 65533 ++ TextEncoder_encode s'
      else utf8_of_code_point c ++ TextEncoder_encode s'
  end.

(** ** Exceptions *)

(** What the two handlers can see thrown: a [TypeError] of the language, the
    errors of the libraries, and a failure of the RPC call carrying the
    upstream message. *)
Inductive exn :=
  | TypeError
  | InvalidPublicKeyInput
  | NonBase58Character
  | BadSignatureSize
  | UpstreamError (message : jsstring).

Inductive result (A : Type) :=
  | Ok (a : A)
  | Throw (e : exn).
Arguments Ok {A} a.
Arguments Throw {A} e.

Global Instance result_ret : MRet result := fun A a => Ok a.
Global Instance result_bind : MBind result := fun A B k r =>
  match r with
  | Ok a => k a
  | Throw e => Throw e
  end.

(** ** Base58 and public keys (bs58, @solana/web3.js) *)

Definition ALPHABET : jsstring :=
  lit "123456789ABCDEFGHJKLMNPQRSTUVWXYZabcdefghijkmnopqrstuvwxyz".

(** The number a digit sequence denotes, most significant digit first. *)
Definition of_digits (base : Z) (ds : list Z) : Z :=
  fold_left (fun acc d => acc * base + d) ds 0.

Fixpoint to_digits_aux (fuel : nat) (base n : Z) (acc : list Z) : list Z :=
  match fuel with
  | O => acc
  | S fuel' =>
      if n <=? 0 then acc
      else to_digits_aux fuel' base (n / base) (n mod base :: acc)
  end.

(** The digits of [n] in [base], most significant first, none for 0. *)
Definition to_digits (base n : Z) : list Z :=
  to_digits_aux (S (Z.to_nat (Z.log2 n))) base n [].

Fixpoint count_leading {A} (p : A -> bool) (l : list A) : nat :=
  match l with
  | x :: l' => if p x then S (count_leading p l') else O
  | [] => O
  end.

Definition is_zero_byte (b : byte) : bool := byte_val b =? 0.

(** [bs58.encode]: one ['1'] per leading zero byte, then the base-58 digits
    of the big-endian value of the bytes. *)
Definition bs58_encode (source : list byte) : jsstring :=
  let zeroes := count_leading is_zero_byte source in
  let digits := to_digits 58 (of_digits 256 (map byte_val source)) in
  repeat 49 zeroes ++ map (fun d => nth (Z.to_nat d) ALPHABET 0) digits.

Fixpoint index_of (c : Z) (l : list Z) : option Z :=
  match l with
  | [] => None
  | x :: l' => if x =? c then Some 0 else Z.succ <$> index_of c l'
  end.

(** [bs58.decode]: throws on a character outside the alphabet. *)
Definition bs58_decode (source : jsstring) : result (list byte) :=
  let zeroes := count_leading (Z.eqb 49) source in
  match mapM (fun c => index_of c ALPHABET) (drop zeroes source) with
  | None => Throw NonBase58Character
  | Some digits =>
      Ok (repeat "000"%byte zeroes ++ map to_uint8 (to_digits 256 (of_digits 58 digits)))
  end.

(** A [PublicKey] holds its 32 bytes as a big number [_bn]. *)
Record PublicKey := { _bn : Z }.

Definition PUBLIC_KEY_LENGTH : nat := 32.

(** [new PublicKey(buffer)]: rejects a value that needs more than 32 bytes. *)
Definition PublicKey_of_bytes (value : list byte) : result PublicKey :=
  let n := of_digits 256 (map byte_val value) in
  if 2 ^ 256 <=? n then Throw InvalidPublicKeyInput else Ok {| _bn := n |}.

(** [new PublicKey(string)]: the string must decode to exactly 32 bytes. *)
Definition PublicKey_of_string (value : jsstring) : result PublicKey :=
  decoded ← bs58_decode value;
  if negb (length decoded =? PUBLIC_KEY_LENGTH)%nat then Throw InvalidPublicKeyInput
  else PublicKey_of_bytes decoded.

(** [pk.toBytes()]: big-endian, padded with zeros on the left to 32 bytes. *)
Definition toBytes (pk : PublicKey) : list byte :=
  let b := map to_uint8 (to_digits 256 (_bn pk)) in
  repeat "000"%byte (PUBLIC_KEY_LENGTH - length b) ++ b.

Definition toBase58 (pk : PublicKey) : jsstring := bs58_encode (toBytes pk).

(** ** GET /api/rooms: the pipeline *)

(** The data of one token account, as [getProgramAccounts] returns it. *)
Abbreviation account_data := (list byte).

(** The loop [for (let i = 0; i < 8; i++) amount |= BigInt(amountBytes[i])
    << (8n * BigInt(i))], started at index [i] with [count] rounds to go.
    [BigInt(undefined)] throws a [TypeError]. *)
Fixpoint read_amount (amountBytes : list byte) (count i : nat) (amount : Z) : result Z :=
  match count with
  | O => Ok amount
  | S count' =>
      match amountBytes !! i with
      | None => Throw TypeError
      | Some b =>
          read_amount amountBytes count' (S i)
            (Z.lor amount (Z.shiftl (byte_val b) (8 * Z.of_nat i)))
      end
  end.

(** [holdersMap]: a [Map] keeps its entries in insertion order, and [set]
    on a key it already holds replaces the value in place. *)
Abbreviation holders_map := (list (jsstring * Z)).

Fixpoint Map_get (m : holders_map) (key : jsstring) : option Z :=
  match m with
  | [] => None
  | (k, v) :: m' => if decide (k = key) then Some v else Map_get m' key
  end.

Fixpoint Map_set (m : holders_map) (key : jsstring) (value : Z) : holders_map :=
  match m with
  | [] => [(key, value)]
  | (k, v) :: m' =>
      if decide (k = key) then (k, value) :: m' else (k, v) :: Map_set m' key value
  end.

(** The body of [for (const { account } of accounts)]. *)
Definition aggregate_account (holdersMap : holders_map) (data : account_data)
  : result holders_map :=
  let amountBytes := slice 64 72 data in
  amount ← read_amount amountBytes 8 0 0;
  if amount =? 0 then Ok holdersMap
  else
    owner ← PublicKey_of_bytes (slice 32 64 data);
    let ownerPubkey := toBase58 owner in
    let current := default 0 (Map_get holdersMap ownerPubkey) in
    Ok (Map_set holdersMap ownerPubkey (current + amount)).

Fixpoint aggregate (holdersMap : holders_map) (accounts : list account_data)
  : result holders_map :=
  match accounts with
  | [] => Ok holdersMap
  | data :: accounts' =>
      holdersMap' ← aggregate_account holdersMap data;
      aggregate holdersMap' accounts'
  end.

Record holder := { h_walletAddress : jsstring; h_balance : number }.

(** [Array.from(holdersMap.entries()).map(...)]. *)
Definition to_holders (holdersMap : holders_map) : list holder :=
  map (fun '(wallet, balance) =>
         {| h_walletAddress := wallet; h_balance := Number_of_BigInt balance |})
      holdersMap.

(** The comparator [(a, b) => b.balance - a.balance], as the sign that
    [sort] looks at.  The difference of two finite doubles has the sign of
    their exact difference; [Infinity - Infinity] is [NaN], which [sort]
    takes for 0. *)
Definition compareFn (a b : holder) : Z :=
  match h_balance b, h_balance a with
  | Fin y, Fin x => Z.sgn (y - x)
  | PosInf, PosInf => 0
  | PosInf, Fin _ => 1
  | Fin _, PosInf => -1
  end.

(** [Array.prototype.sort] is stable: [x] goes after [y] only when the
    comparator says so, and otherwise keeps its place before the elements
    that followed it.  For a comparator that is a consistent ordering the
    result does not depend on the engine's algorithm; insertion computes
    it. *)
Fixpoint sort_insert {A} (cmp : A -> A -> Z) (x : A) (sorted : list A) : list A :=
  match sorted with
  | [] => [x]
  | y :: sorted' =>
      if 0 <? cmp x y then y :: sort_insert cmp x sorted' else x :: y :: sorted'
  end.

Fixpoint Array_sort {A} (cmp : A -> A -> Z) (a : list A) : list A :=
  match a with
  | [] => []
  | x :: a' => sort_insert cmp x (Array_sort cmp a')
  end.

Inductive Role := Landlord | Tenant.

Global Instance Role_eq_dec : EqDecision Role.
Proof. solve_decision. Defined.

(** One element of the [rooms] array of the response. *)
Record room := {
  walletAddress : jsstring;
  roomNumber : Z;
  role : Role;
  balance : jsstring;
  displayName : option jsstring
}.

(** A row of the table [display_names], keyed by its [wallet]. *)
Record name_row := { name : jsstring; updated_at : Z }.

Abbreviation registry := (gmap jsstring name_row).

(** [top.map((h, index) => ...)]; [getNameStmt.get] reads the registry. *)
Definition withRooms (db : registry) (top : list holder) : list room :=
  imap (fun index h =>
          {| walletAddress := h_walletAddress h;
             roomNumber := hashToRoom (h_walletAddress h) MAX_ROOMS;
             role := if Z.of_nat index <? LANDLORD_TOP_N then Landlord else Tenant;
             balance := Number_toString (h_balance h);
             displayName := name <$> db !! h_walletAddress h |})
       top.

(** From the accounts to the sorted holders, to the top of the ranking,
    and on to the rooms. *)
Definition ranked_holders (accounts : list account_data) : result (list holder) :=
  holdersMap ← aggregate [] accounts;
  Ok (Array_sort compareFn (to_holders holdersMap)).

Definition top_holders (accounts : list account_data) : result (list holder) :=
  holders ← ranked_holders accounts;
  Ok (slice 0 (Z.to_nat MAX_ROOMS) holders).

Definition compute_rooms (db : registry) (accounts : list account_data)
  : result (list room) :=
  top ← top_holders accounts;
  Ok (withRooms db top).

(** ** The server state and its responses *)

(** The module-level variables [roomsCache], [roomsCacheMint] and
    [roomsCacheUpdatedAt], and the table behind [db]. *)
Record server := {
  roomsCache : option (list room);
  roomsCacheMint : option jsstring;
  roomsCacheUpdatedAt : Z;
  db : registry
}.

Definition initial_server : server :=
  {| roomsCache := None; roomsCacheMint := None; roomsCacheUpdatedAt := 0; db := ∅ |}.

Inductive body :=
  | RoomsBody (rooms : list room) (cached : bool)
  | ErrorBody (error : string)
  | NameBody (ok : bool) (wallet : jsstring) (display : jsstring).

(** [res.status(s).json(b)]; [res.json(b)] answers with status 200. *)
Record response := { status : Z; payload : body }.

Definition json (b : body) : response := {| status := 200; payload := b |}.
Definition error (s : Z) (msg : string) : response :=
  {| status := s; payload := ErrorBody msg |}.

Section Server.

(** [TOKEN_MINT], parsed at start-up. *)
Variable mintPubkey : PublicKey.

(** The Ed25519 check of tweetnacl on a message, a 64-byte signature and
    a 32-byte public key. *)
Variable crypto_sign_verify : list byte -> list byte -> list byte -> bool.

(** *** GET /api/rooms *)

(** [req.query.mint ? new PublicKey(req.query.mint) : mintPubkey]; an
    absent or empty parameter is falsy. *)
Definition requested_mint (query_mint : option jsstring) : result PublicKey :=
  match query_mint with
  | Some (c :: q) => PublicKey_of_string (c :: q)
  | _ => Ok mintPubkey
  end.

(** The test of the [if] that serves from the cache. *)
Definition cache_fresh (st : server) (mintBase58 : jsstring) (now : Z) : bool :=
  match roomsCache st with
  | Some _ =>
      bool_decide (roomsCacheMint st = Some mintBase58)
      && (now - roomsCacheUpdatedAt st <? CACHE_TTL_MS)
  | None => false
  end.

(** The [catch] block of the handler. *)
Definition rooms_catch (err : exn) : response :=
  let errStr :=
    match err with
    | UpstreamError message => message
    | TypeError => lit "Cannot convert undefined to a BigInt"
    | InvalidPublicKeyInput => lit "Invalid public key input"
    | NonBase58Character => lit "Non-base58 character"
    | BadSignatureSize => lit "bad signature size"
    end in
  if includes errStr (lit "429") || includes errStr (lit "Too many requests")
  then error 503 "Upstream RPC rate-limited. Try again in a minute."
  else error 500 "Failed to load rooms".

(** The handler runs up to its [await]: either it has answered, or it has
    called [getProgramAccounts] for [mintBase58] and waits. *)
Inductive rooms_progress :=
  | Answered (res : response)
  | Awaiting (mintBase58 : jsstring) (now : Z).

Definition rooms_begin (st : server) (query_mint : option jsstring) (now : Z)
  : rooms_progress :=
  match requested_mint query_mint with
  | Throw err => Answered (rooms_catch err)
  | Ok mint =>
      let mintBase58 := toBase58 mint in
      if cache_fresh st mintBase58 now then
        Answered (json (RoomsBody (default [] (roomsCache st)) true))
      else Awaiting mintBase58 now
  end.

(** The handler after the [await], with what the RPC call settled to. *)
Definition rooms_resume (st : server) (mintBase58 : jsstring) (now : Z)
    (fetched : result (list account_data)) : server * response :=
  match accounts ← fetched; compute_rooms (db st) accounts with
  | Throw err => (st, rooms_catch err)
  | Ok rooms =>
      ({| roomsCache := Some rooms;
          roomsCacheMint := Some mintBase58;
          roomsCacheUpdatedAt := now;
          db := db st |},
       json (RoomsBody rooms false))
  end.

(** A request served with nothing else running in between; [rpc] is the
    answer of the upstream node for a mint. *)
Definition get_rooms (rpc : jsstring -> result (list account_data))
    (st : server) (query_mint : option jsstring) (now : Z) : server * response :=
  match rooms_begin st query_mint now with
  | Answered res => (st, res)
  | Awaiting mintBase58 now' => rooms_resume st mintBase58 now' (rpc mintBase58)
  end.

(** *** POST /api/display-name *)

(** The body [{ walletAddress, displayName, message, signature: number[] }];
    each field may be missing. *)
Record name_request := {
  req_walletAddress : option jsstring;
  req_displayName : option jsstring;
  req_message : option jsstring;
  req_signature : option (list Z)
}.

(** [!s] for a field holding a string: missing and empty are falsy. *)
Definition falsy_string (s : option jsstring) : bool :=
  match s with
  | Some (_ :: _) => false
  | _ => true
  end.

(** [!a] for a field holding an array: only a missing one is falsy. *)
Definition falsy_array (a : option (list Z)) : bool :=
  match a with
  | Some _ => false
  | None => true
  end.

(** [nacl.sign.detached.verify]: throws on a signature that is not 64
    bytes long. *)
Definition nacl_sign_detached_verify (msg sig publicKey : list byte) : result bool :=
  if negb (length sig =? 64)%nat then Throw BadSignatureSize
  else Ok (crypto_sign_verify msg sig publicKey).

(** [upsertNameStmt.run]: insert, or overwrite name and time on conflict. *)
Definition upsertName (d : registry) (wallet name : jsstring) (updated_at : Z)
  : registry :=
  <[wallet := {| name := name; updated_at := updated_at |}]> d.

Definition NAME_UPDATE_PREFIX : jsstring := lit "RENTFREE_NAME_UPDATE_V1:".

(** The lines from [new PublicKey(walletAddress)] to the call of
    [nacl.sign.detached.verify]; each of the two can throw. *)
Definition check_signature (walletAddress message : jsstring) (signature : list Z)
  : result bool :=
  pubkey ← PublicKey_of_string walletAddress;
  let msgBytes := TextEncoder_encode message in
  let sigBytes := map to_uint8 signature in
  nacl_sign_detached_verify msgBytes sigBytes (toBytes pubkey).

Definition post_display_name (st : server) (req : name_request) (now : Z)
  : server * response :=
  if falsy_string (req_walletAddress req) || falsy_string (req_displayName req)
     || falsy_string (req_message req) || falsy_array (req_signature req)
  then (st, error 400 "Missing fields")
  else
    let walletAddress := default [] (req_walletAddress req) in
    let displayName := default [] (req_displayName req) in
    let message := default [] (req_message req) in
    let signature := default [] (req_signature req) in
    if negb (startsWith message NAME_UPDATE_PREFIX)
    then (st, error 400 "Invalid message prefix")
    else if (length displayName <? 1)%nat || (24 <? length displayName)%nat
    then (st, error 400 "Invalid name length")
    else
      match check_signature walletAddress message signature with
      | Throw _ => (st, error 500 "Failed to save display name")
      | Ok false => (st, error 401 "Signature verification failed")
      | Ok true =>
          ({| roomsCache := roomsCache st;
              roomsCacheMint := roomsCacheMint st;
              roomsCacheUpdatedAt := roomsCacheUpdatedAt st;
              db := upsertName (db st) walletAddress displayName now |},
           json (NameBody true walletAddress displayName))
      end.

(** *** Requests interleaved by the event loop *)

(** Handlers run one at a time but a [GET /api/rooms] gives way at its
    [await]: other requests are served between the call of
    [getProgramAccounts] and the arrival of its result. *)
Inductive event :=
  | RoomsRequest (id : nat) (query_mint : option jsstring) (now : Z)
  | AccountsSettled (id : nat) (fetched : result (list account_data))
  | NameRequest (id : nat) (req : name_request) (now : Z).

Record world := {
  srv : server;
  (** handlers suspended at the [await]: request, mint, [now] *)
  suspended : list (nat * (jsstring * Z));
  (** the mints of the [getProgramAccounts] calls made so far *)
  rpc_calls : list jsstring;
  (** the responses sent so far, latest first *)
  sent : list (nat * response)
}.

Definition initial_world : world :=
  {| srv := initial_server; suspended := []; rpc_calls := []; sent := [] |}.

Fixpoint remove_suspended (id : nat) (l : list (nat * (jsstring * Z)))
  : list (nat * (jsstring * Z)) :=
  match l with
  | [] => []
  | (i, k) :: l' => if (i =? id)%nat then l' else (i, k) :: remove_suspended id l'
  end.

Fixpoint find_suspended (id : nat) (l : list (nat * (jsstring * Z)))
  : option (jsstring * Z) :=
  match l with
  | [] => None
  | (i, k) :: l' => if (i =? id)%nat then Some k else find_suspended id l'
  end.

Definition run_event (w : world) (ev : event) : world :=
  match ev with
  | RoomsRequest id query_mint now =>
      match rooms_begin (srv w) query_mint now with
      | Answered res =>
          {| srv := srv w; suspended := suspended w; rpc_calls := rpc_calls w;
             sent := (id, res) :: sent w |}
      | Awaiting mintBase58 now' =>
          {| srv := srv w;
             suspended := suspended w ++ [(id, (mintBase58, now'))];
             rpc_calls := rpc_calls w ++ [mintBase58];
             sent := sent w |}
      end
  | AccountsSettled id fetched =>
      match find_suspended id (suspended w) with
      | None => w
      | Some (mintBase58, now) =>
          let '(st, res) := rooms_resume (srv w) mintBase58 now fetched in
          {| srv := st; suspended := remove_suspended id (suspended w);
             rpc_calls := rpc_calls w; sent := (id, res) :: sent w |}
      end
  | NameRequest id req now =>
      let '(st, res) := post_display_name (srv w) req now in
      {| srv := st; suspended := suspended w; rpc_calls := rpc_calls w;
         sent := (id, res) :: sent w |}
  end.

Definition run_events (w : world) (evs : list event) : world :=
  fold_left run_event evs w.

End Server.

(** ** The earlier revision of the server *)

(** The revision of the file without the cache answers [{ rooms }] or, on
    any failure, 500; its pipeline is the one above, line for line. *)
Inductive body0 :=
  | Rooms0 (rooms : list room)
  | Error0 (error : string).

Record response0 := { status0 : Z; payload0 : body0 }.

Definition get_rooms_v0 (mintPubkey : PublicKey)
    (rpc : jsstring -> result (list account_data)) (d : registry)
    (query_mint : option jsstring) : response0 :=
  match
    mint ← requested_mint mintPubkey query_mint;
    accounts ← rpc (toBase58 mint);
    compute_rooms d accounts
  with
  | Ok rooms => {| status0 := 200; payload0 := Rooms0 rooms |}
  | Throw _ => {| status0 := 500; payload0 := Error0 "Failed to load rooms" |}
  end.

(** ** Vocabulary of the specification *)

(** The wallet address of the owner field, bytes [32,64) of a record. *)
Definition owner_wallet (data : account_data) : jsstring :=
  toBase58 {| _bn := of_digits 256 (map byte_val (slice 32 64 data)) |}.

(** The value of a little-endian byte string. *)
Definition le_value (bs : list byte) : Z :=
  fold_right (fun b acc => byte_val b + 256 * acc) 0 bs.

(** The amount field, bytes [64,72) of a record, as a little-endian u64. *)
Definition amount_of (data : account_data) : Z := le_value (slice 64 72 data).

(** The exact sum of the amounts of the records that [wallet] owns. *)
Definition total_amount (wallet : jsstring) (accounts : list account_data) : Z :=
  fold_right Z.add 0
    (map amount_of (filter (fun data => owner_wallet data = wallet) accounts)).

(** The elements of [ws] that are not in [seen], each once, in the order
    in which they first occur. *)
Fixpoint first_occurrences (seen ws : list jsstring) : list jsstring :=
  match ws with
  | [] => []
  | w :: ws' =>
      if decide (w ∈ seen) then first_occurrences seen ws'
      else w :: first_occurrences (seen ++ [w]) ws'
  end.

(** The wallets that own a non-zero record, in the order in which the
    upstream response first shows them. *)
Definition appearance (accounts : list account_data) : list jsstring :=
  first_occurrences []
    (map owner_wallet (filter (fun data => amount_of data ≠ 0) accounts)).

(** The order of the doubles that [Number_of_BigInt] produces. *)
Definition number_le (x y : number) : Prop :=
  match x, y with
  | Fin a, Fin b => a <= b
  | _, PosInf => True
  | PosInf, Fin _ => False
  end.

(** Lexicographic order of strings by code unit (the [<=] of the language). *)
Fixpoint string_leb (s t : jsstring) : bool :=
  match s, t with
  | [], _ => true
  | _ :: _, [] => false
  | c :: s', d :: t' => (c <? d) || ((c =? d) && string_leb s' t')
  end.

(** The number of rooms with a given role. *)
Definition count_role (ro : Role) (rooms : list room) : nat :=
  length (filter (fun r => role r = ro) rooms).

(** A field of the body counts as missing when it is absent or holds the
    empty string. *)
Definition absent_or_empty (s : option jsstring) : Prop := s = None \/ s = Some [].

Definition fields_missing (req : name_request) : Prop :=
  absent_or_empty (req_walletAddress req) \/ absent_or_empty (req_displayName req)
  \/ absent_or_empty (req_message req) \/ req_signature req = None.

(** The condition under which the cache answers a request for [mint] at
    time [now]. *)
Definition cache_hit (st : server) (mint : jsstring) (now : Z) : Prop :=
  is_Some (roomsCache st) /\ roomsCacheMint st = Some mint
  /\ now - roomsCacheUpdatedAt st < 30000.

(** Neither the stored snapshot nor any directory sent so far has more
    than [MAX_ROOMS] rooms. *)
Definition rooms_bounded (res : response) : Prop :=
  match payload res with
  | RoomsBody rooms _ => (length rooms <= 80)%nat
  | _ => True
  end.

Definition snapshots_bounded (w : world) : Prop :=
  (forall rooms, roomsCache (srv w) = Some rooms -> (length rooms <= 80)%nat)
  /\ Forall (fun s => rooms_bounded s.2) (sent w).

(** Every balance stored in the map is positive. *)
Definition positive_values (m : holders_map) : Prop :=
  forall k v, Map_get m k = Some v -> 0 < v.

(** [a] may stand before [b] in the ranking: its balance is not smaller. *)
Definition outranks (a b : holder) : Prop := number_le (h_balance b) (h_balance a).

(** Rooms listed with the same balance stand in the lexicographic order
    of their wallet addresses. *)
Definition ties_in_wallet_order (rooms : list room) : Prop :=
  forall i j ri rj,
    (i < j)%nat -> rooms !! i = Some ri -> rooms !! j = Some rj ->
    balance ri = balance rj ->
    string_leb (walletAddress ri) (walletAddress rj) = true.

(** Every room is listed with the exact decimal numeral of the sum of the
    amounts of its wallet. *)
Definition balances_exact (accounts : list account_data) (rooms : list room) : Prop :=
  forall r, r ∈ rooms -> balance r = decimal (total_amount (walletAddress r) accounts).

(** A directory request as it arrives: its id, its [mint] parameter and
    the time. *)
Definition arrival (r : nat * option jsstring * Z) : event :=
  let '(id, query_mint, now) := r in RoomsRequest id query_mint now.

(** The rooms were sent before as a directory fresh from the pipeline. *)
Definition computed_before (w : world) (rooms : list room) : Prop :=
  exists id, (id, json (RoomsBody rooms false)) ∈ sent w.

(** The stored snapshot, and every directory that was served from the
    cache, is one that the pipeline computed and sent before. *)
Definition cache_serves_computed (w : world) : Prop :=
  (forall rooms, roomsCache (srv w) = Some rooms -> computed_before w rooms)
  /\ forall id rooms, (id, json (RoomsBody rooms true)) ∈ sent w -> computed_before w rooms.

(** What a room says apart from the display name. *)
Definition listing (r : room) : jsstring * Z * Role * jsstring :=
  (walletAddress r, roomNumber r, role r, balance r).

(** The event is the arrival of the accounts that request [id] waits for. *)
Definition settles (id : nat) (ev : event) : Prop :=
  match ev with
  | AccountsSettled id' _ => id' = id
  | _ => False
  end.

(** ** Fixtures *)

Fixpoint le_bytes (count : nat) (n : Z) : list byte :=
  match count with
  | O => []
  | S count' => to_uint8 n :: le_bytes count' (n / 256)
  end.

(** A 165-byte token account: mint, owner, amount, and the 93 bytes of the
    remaining fields. *)
Definition token_account (mint owner : list byte) (amount : Z) : account_data :=
  mint ++ owner ++ le_bytes 8 amount ++ repeat "000"%byte 93.

Definition key_of (n : Z) : list byte := repeat "000"%byte 31 ++ [to_uint8 n].

Definition mintX : list byte := key_of 7.
Definition W1 : list byte := key_of 1.
Definition W2 : list byte := key_of 2.

Definition address (key : list byte) : jsstring := bs58_encode key.

Definition the_mint : PublicKey := {| _bn := 7 |}.

(** A stand-in for the signature check that accepts exactly the signatures
    whose first byte is 1. *)
Definition toy_verify (msg sig publicKey : list byte) : bool :=
  match sig with
  | b :: _ => byte_val b =? 1
  | [] => false
  end.

Definition alice_request (sig0 : Z) : name_request :=
  {| req_walletAddress := Some (address W1);
     req_displayName := Some (lit "alice");
     req_message := Some (lit "RENTFREE_NAME_UPDATE_V1:alice");
     req_signature := Some (sig0 :: repeat 0 63) |}.

Definition example_accounts : list account_data :=
  [token_account mintX W1 500; token_account mintX W2 0; token_account mintX W1 300].

Definition example_rooms : list room :=
  [{| walletAddress := address W1;
      roomNumber := hashToRoom (address W1) MAX_ROOMS;
      role := Landlord;
      balance := lit "800";
      displayName := None |}].

Definition example_rpc (mint : jsstring) : result (list account_data) :=
  Ok example_accounts.

Definition failing_rpc (mint : jsstring) : result (list account_data) :=
  Throw (UpstreamError (lit "429 Too many requests")).

Definition warm_server : server :=
  {| roomsCache := Some example_rooms; roomsCacheMint := Some (toBase58 the_mint);
     roomsCacheUpdatedAt := 1000; db := ∅ |}.

(** Ninety accounts of ninety owners, the i-th holding [i + 1]. *)
Definition ninety_accounts : list account_data :=
  map (fun i => token_account mintX (key_of (Z.of_nat i)) (Z.of_nat i + 1)) (seq 0 90).

(** Two owners with the same amount, the greater address first. *)
Definition tie_accounts : list account_data :=
  [token_account mintX W2 5; token_account mintX W1 5].

(** One owner of [2^53 + 1] tokens. *)
Definition whale_accounts : list account_data :=
  [token_account mintX W1 (2 ^ 53 + 1)].

(** ** Tests of the builtins *)

Example hashToRoom_abc : hashToRoom (lit "abc") 80 = 35.
Proof. reflexivity. Qed.

Example Number_2_53_plus_1 : Number_of_BigInt (2 ^ 53 + 1) = Fin (2 ^ 53).
Proof. reflexivity. Qed.

Example Number_2_53_plus_3 : Number_of_BigInt (2 ^ 53 + 3) = Fin (2 ^ 53 + 4).
Proof. reflexivity. Qed.

Example toString_800 : Number_toString (Fin 800) = lit "800".
Proof. reflexivity. Qed.

Example toString_2_53 : Number_toString (Fin (2 ^ 53)) = lit "9007199254740992".
Proof. vm_compute. reflexivity. Qed.

Example toString_2_69 : Number_toString (Fin (2 ^ 69)) = lit "590295810358705700000".
Proof. vm_compute. reflexivity. Qed.

Example toString_2_70 : Number_toString (Fin (2 ^ 70)) = lit "1.1805916207174113e+21".
Proof. vm_compute. reflexivity. Qed.

Example toString_1e21 : Number_toString (Fin (10 ^ 21)) = lit "1e+21".
Proof. vm_compute. reflexivity. Qed.

Example toString_1e23 : Number_toString (Number_of_BigInt (10 ^ 23)) = lit "1e+23".
Proof. vm_compute. reflexivity. Qed.

Example base58_system_program :
  (pk ← PublicKey_of_bytes (repeat "000"%byte 32); Ok (toBase58 pk))
  = Ok (lit "11111111111111111111111111111111").
Proof. vm_compute. reflexivity. Qed.

Example base58_token_program :
  (pk ← PublicKey_of_string (lit "TokenkegQfeZyiNwAJbNbGKPFXCWuBvf9Ss623VQ5DA");
   Ok (toBase58 pk, map byte_val (take 4 (toBytes pk))))
  = Ok (lit "TokenkegQfeZyiNwAJbNbGKPFXCWuBvf9Ss623VQ5DA", [6; 221; 246; 225]).
Proof. vm_compute. reflexivity. Qed.

Example utf8_euro : map byte_val (TextEncoder_encode [8364]) = [226; 130; 172].
Proof. vm_compute. reflexivity. Qed.

Example utf8_pair : map byte_val (TextEncoder_encode [55357; 56832]) = [240; 159; 152; 128].
Proof. vm_compute. reflexivity. Qed.

Example address_W1 : address W1 = lit "11111111111111111111111111111112".
Proof. vm_compute. reflexivity. Qed.

Example spec_end_to_end : compute_rooms ∅ example_accounts = Ok example_rooms.
Proof. vm_compute. reflexivity. Qed.

(** * Properties *)

(** ** The room number *)

Lemma hash_loop_nonneg (wallet : jsstring) (h0 : Z) :
  0 <= h0 -> 0 <= fold_left (fun hash c => u32 (hash * 31 + c)) wallet h0.
Proof.
  revert h0. induction wallet as [|c wallet IH]; intros h0 Hh0; simpl.
  - exact Hh0.
  - apply IH. unfold u32. apply Z.mod_pos_bound. lia.
Qed.

Lemma withRooms_lookup (d : registry) (top : list holder) (i : nat) (r : room) :
  withRooms d top !! i = Some r ->
  exists h, top !! i = Some h
    /\ walletAddress r = h_walletAddress h
    /\ roomNumber r = hashToRoom (h_walletAddress h) MAX_ROOMS
    /\ role r = (if Z.of_nat i <? LANDLORD_TOP_N then Landlord else Tenant)
    /\ balance r = Number_toString (h_balance h)
    /\ displayName r = name <$> d !! h_walletAddress h.
Proof.
  unfold withRooms. rewrite list_lookup_imap.
  destruct (top !! i) as [h|]; simpl; [|discriminate].
  intros [= <-]. exists h. simpl. repeat split; reflexivity.
Qed.

Lemma compute_rooms_inv (d : registry) (accounts : list account_data) (rooms : list room) :
  compute_rooms d accounts = Ok rooms ->
  exists top, top_holders accounts = Ok top /\ rooms = withRooms d top.
Proof.
  unfold compute_rooms. destruct (top_holders accounts) as [top|e]; simpl.
  - intros [= <-]. eauto.
  - discriminate.
Qed.

(** C4.  For every wallet string [W] and room count [M > 0],
    [hashToRoom W M] lies in [1, M]; it is a function of its two arguments
    only, and the room number of an entry of any directory, whatever the
    accounts, the registry and the rank of the entry, is
    [hashToRoom] of its wallet address and [MAX_ROOMS]: the same wallet
    has the same room in every snapshot. *)
Theorem hashToRoom_range_wallet_only (W : jsstring) (M : Z) (HM : 0 < M) :
  1 <= hashToRoom W M <= M
  /\ forall (d : registry) (accounts : list account_data) (rooms : list room) (r : room),
       compute_rooms d accounts = Ok rooms -> r ∈ rooms -> walletAddress r = W ->
       roomNumber r = hashToRoom W MAX_ROOMS.
Proof.
  split.
  - unfold hashToRoom.
    pose proof (hash_loop_nonneg W 0 (Z.le_refl 0)) as Hh.
    pose proof (Z.rem_bound_pos _ M Hh HM). lia.
  - intros d accounts rooms r Hrooms Hr HW.
    destruct (compute_rooms_inv _ _ _ Hrooms) as (top & _ & ->).
    apply list_elem_of_lookup in Hr as [i Hi].
    destruct (withRooms_lookup _ _ _ _ Hi) as (h & _ & Hw & Hn & _).
    rewrite Hn, <- Hw, HW. reflexivity.
Qed.

Lemma hashToRoom_range_wallet_only_witness :
  1 <= hashToRoom (address W1) 80 <= 80
  /\ forall r, r ∈ example_rooms ->
       walletAddress r = address W1 ->
       roomNumber r = hashToRoom (address W1) MAX_ROOMS.
Proof.
  destruct (hashToRoom_range_wallet_only (address W1) 80 ltac:(lia)) as [Hrange Hroom].
  split; [exact Hrange|].
  intros r Hr Hw.
  exact (Hroom ∅ _ _ r spec_end_to_end Hr Hw).
Defined.

(** ** The name update *)

Section NameUpdate.

Variable verify : list byte -> list byte -> list byte -> bool.

Lemma falsy_string_spec (s : option jsstring) :
  falsy_string s = true <-> absent_or_empty s.
Proof.
  unfold absent_or_empty. destruct s as [[|c s]|]; simpl; split; intros H;
    try reflexivity; try discriminate; auto; destruct H; discriminate.
Qed.

Lemma fields_missing_spec (req : name_request) :
  falsy_string (req_walletAddress req) || falsy_string (req_displayName req)
  || falsy_string (req_message req) || falsy_array (req_signature req) = true
  <-> fields_missing req.
Proof.
  unfold fields_missing. rewrite !orb_true_iff, !falsy_string_spec.
  assert (falsy_array (req_signature req) = true <-> req_signature req = None) as ->.
  { destruct (req_signature req); simpl; split; intros; congruence. }
  tauto.
Qed.

Lemma post_missing (st : server) (req : name_request) (now : Z) :
  fields_missing req ->
  post_display_name verify st req now = (st, error 400 "Missing fields").
Proof.
  intros H. apply fields_missing_spec in H. unfold post_display_name.
  rewrite H. reflexivity.
Qed.

Lemma post_present (st : server) (now : Z) (w n m : jsstring) (sg : list Z) :
  w <> [] -> n <> [] -> m <> [] ->
  post_display_name verify st
    {| req_walletAddress := Some w; req_displayName := Some n;
       req_message := Some m; req_signature := Some sg |} now
  = if negb (startsWith m NAME_UPDATE_PREFIX)
    then (st, error 400 "Invalid message prefix")
    else if (24 <? length n)%nat
    then (st, error 400 "Invalid name length")
    else
      match check_signature verify w m sg with
      | Throw _ => (st, error 500 "Failed to save display name")
      | Ok false => (st, error 401 "Signature verification failed")
      | Ok true =>
          ({| roomsCache := roomsCache st;
              roomsCacheMint := roomsCacheMint st;
              roomsCacheUpdatedAt := roomsCacheUpdatedAt st;
              db := upsertName (db st) w n now |},
           json (NameBody true w n))
      end.
Proof.
  intros Hw Hn Hm. unfold post_display_name; simpl.
  destruct w as [|cw w]; [congruence|].
  destruct n as [|cn n]; [congruence|].
  destruct m as [|cm m]; [congruence|].
  reflexivity.
Qed.

Lemma post_error_keeps_state (st : server) (req : name_request) (now : Z) :
  status (post_display_name verify st req now).2 <> 200 ->
  (post_display_name verify st req now).1 = st.
Proof.
  unfold post_display_name.
  repeat match goal with
         | |- context [if ?b then _ else _] => destruct b
         | |- context [match ?r with Ok _ => _ | Throw _ => _ end] => destruct r
         end; simpl; congruence.
Qed.

End NameUpdate.

(** C8.  The name update checks, in this order, that the fields are there,
    that the message has the prefix, that the name is not too long, and
    that the signature verifies, and only then writes the registry: the
    first check that fails decides the answer (400 for the first three,
    401 for a signature that does not verify, 500 when the verification
    throws), and whenever the answer is not 200 the state, registry
    included, is what it was. *)
Theorem name_update_check_order
    (verify : list byte -> list byte -> list byte -> bool)
    (st : server) (req : name_request) (now : Z) :
  let out := post_display_name verify st req now in
  (fields_missing req -> out = (st, error 400 "Missing fields"))
  /\ (forall (w n m : jsstring) (sg : list Z),
        req = {| req_walletAddress := Some w; req_displayName := Some n;
                 req_message := Some m; req_signature := Some sg |} ->
        w <> [] -> n <> [] -> m <> [] ->
        (startsWith m NAME_UPDATE_PREFIX = false ->
         out = (st, error 400 "Invalid message prefix"))
        /\ (startsWith m NAME_UPDATE_PREFIX = true -> (24 < length n)%nat ->
            out = (st, error 400 "Invalid name length"))
        /\ (startsWith m NAME_UPDATE_PREFIX = true -> (length n <= 24)%nat ->
            (check_signature verify w m sg = Ok false ->
             out = (st, error 401 "Signature verification failed"))
            /\ (forall e, check_signature verify w m sg = Throw e ->
                out = (st, error 500 "Failed to save display name"))
            /\ (check_signature verify w m sg = Ok true ->
                out.2 = json (NameBody true w n)
                /\ db out.1 = <[w := {| name := n; updated_at := now |}]> (db st)
                /\ roomsCache out.1 = roomsCache st
                /\ roomsCacheMint out.1 = roomsCacheMint st
                /\ roomsCacheUpdatedAt out.1 = roomsCacheUpdatedAt st)))
  /\ (status out.2 <> 200 -> out.1 = st).
Proof.
  intros out. subst out. split; [|split].
  - apply post_missing.
  - intros w n m sg -> Hw Hn Hm. rewrite (post_present verify st now w n m sg Hw Hn Hm).
    split; [|split].
    + intros ->. reflexivity.
    + intros -> Hlen. simpl. apply Nat.ltb_lt in Hlen. rewrite Hlen. reflexivity.
    + intros -> Hlen. simpl.
      assert ((24 <? length n)%nat = false) as -> by (apply Nat.ltb_ge; exact Hlen).
      split; [|split].
      * intros ->. reflexivity.
      * intros e ->. reflexivity.
      * intros ->. simpl. repeat split; reflexivity.
  - apply post_error_keeps_state.
Qed.

Lemma name_update_check_order_witness :
  post_display_name toy_verify initial_server
    {| req_walletAddress := Some (address W1); req_displayName := None;
       req_message := Some (lit "hello"); req_signature := Some [] |} 5
  = (initial_server, error 400 "Missing fields")
  /\ post_display_name toy_verify initial_server
       {| req_walletAddress := Some (address W1); req_displayName := Some (lit "alice");
          req_message := Some (lit "hello"); req_signature := Some [] |} 5
     = (initial_server, error 400 "Invalid message prefix")
  /\ post_display_name toy_verify initial_server
       {| req_walletAddress := Some (address W1);
          req_displayName := Some (lit "a name of twenty-five chr");
          req_message := Some (lit "RENTFREE_NAME_UPDATE_V1:alice");
          req_signature := Some [] |} 5
     = (initial_server, error 400 "Invalid name length")
  /\ post_display_name toy_verify initial_server (alice_request 0) 5
     = (initial_server, error 401 "Signature verification failed")
  /\ post_display_name toy_verify initial_server
       {| req_walletAddress := Some (address W1); req_displayName := Some (lit "alice");
          req_message := Some (lit "RENTFREE_NAME_UPDATE_V1:alice");
          req_signature := Some [1] |} 5
     = (initial_server, error 500 "Failed to save display name")
  /\ db (post_display_name toy_verify initial_server (alice_request 1) 5).1
     = <[address W1 := {| name := lit "alice"; updated_at := 5 |}]> ∅
  /\ (post_display_name toy_verify initial_server (alice_request 0) 5).1 = initial_server.
Proof.
  split; [|split; [|split; [|split; [|split; [|split]]]]].
  - pose proof (name_update_check_order toy_verify initial_server
      {| req_walletAddress := Some (address W1); req_displayName := None;
         req_message := Some (lit "hello"); req_signature := Some [] |} 5) as H.
    cbv zeta in H. destruct H as (H & _ & _). apply H.
    right. left. left. reflexivity.
  - pose proof (name_update_check_order toy_verify initial_server
      {| req_walletAddress := Some (address W1); req_displayName := Some (lit "alice");
         req_message := Some (lit "hello"); req_signature := Some [] |} 5) as H.
    cbv zeta in H. destruct H as (_ & H & _).
    destruct (H _ _ _ _ eq_refl) as (H1 & _); [discriminate..|].
    apply H1. vm_compute. reflexivity.
  - pose proof (name_update_check_order toy_verify initial_server
      {| req_walletAddress := Some (address W1);
         req_displayName := Some (lit "a name of twenty-five chr");
         req_message := Some (lit "RENTFREE_NAME_UPDATE_V1:alice");
         req_signature := Some [] |} 5) as H.
    cbv zeta in H. destruct H as (_ & H & _).
    destruct (H _ _ _ _ eq_refl) as (_ & H2 & _); [discriminate..|].
    apply H2; [vm_compute; reflexivity | simpl; lia].
  - pose proof (name_update_check_order toy_verify initial_server (alice_request 0) 5) as H.
    cbv zeta in H. destruct H as (_ & H & _).
    destruct (H _ _ _ _ eq_refl) as (_ & _ & H3); [discriminate..|].
    destruct H3 as (H4 & _); [vm_compute; reflexivity | simpl; lia |].
    apply H4. vm_compute. reflexivity.
  - pose proof (name_update_check_order toy_verify initial_server
      {| req_walletAddress := Some (address W1); req_displayName := Some (lit "alice");
         req_message := Some (lit "RENTFREE_NAME_UPDATE_V1:alice");
         req_signature := Some [1] |} 5) as H.
    cbv zeta in H. destruct H as (_ & H & _).
    destruct (H _ _ _ _ eq_refl) as (_ & _ & H3); [discriminate..|].
    destruct H3 as (_ & H5 & _); [vm_compute; reflexivity | simpl; lia |].
    apply (H5 BadSignatureSize). vm_compute. reflexivity.
  - pose proof (name_update_check_order toy_verify initial_server (alice_request 1) 5) as H.
    cbv zeta in H. destruct H as (_ & H & _).
    destruct (H _ _ _ _ eq_refl) as (_ & _ & H3); [discriminate..|].
    destruct H3 as (_ & _ & H6); [vm_compute; reflexivity | simpl; lia |].
    destruct H6 as (_ & Hdb & _); [vm_compute; reflexivity|].
    exact Hdb.
  - pose proof (name_update_check_order toy_verify initial_server (alice_request 0) 5) as H.
    cbv zeta in H. destruct H as (_ & _ & H). apply H.
    vm_compute. discriminate.
Defined.

(** C10.  A name update whose [message] or [displayName] is there but
    empty is answered 400 "Missing fields" whatever its other fields
    hold; so "Invalid name length" is only ever said of a name of more
    than 24 code units, and "Invalid message prefix" only of a message
    that is not empty. *)
Theorem empty_field_is_missing
    (verify : list byte -> list byte -> list byte -> bool)
    (st : server) (req : name_request) (now : Z) :
  (req_message req = Some [] \/ req_displayName req = Some [] ->
   post_display_name verify st req now = (st, error 400 "Missing fields"))
  /\ ((post_display_name verify st req now).2 = error 400 "Invalid name length" ->
      exists n, req_displayName req = Some n /\ (24 < length n)%nat)
  /\ ((post_display_name verify st req now).2 = error 400 "Invalid message prefix" ->
      exists m, req_message req = Some m /\ m <> []
                /\ startsWith m NAME_UPDATE_PREFIX = false).
Proof.
  split; [|split].
  - intros H. apply post_missing. unfold fields_missing, absent_or_empty. tauto.
  - destruct req as [[[|cw w]|] [[|cn n]|] [[|cm m]|] [sg|]]; simpl;
      try (intros [=]; fail).
    rewrite (post_present verify st now (cw :: w) (cn :: n) (cm :: m) sg) by discriminate.
    destruct (negb _); [intros [=]|].
    destruct (24 <? length (cn :: n))%nat eqn:Hlen.
    + intros _. exists (cn :: n). split; [reflexivity|]. apply Nat.ltb_lt. exact Hlen.
    + destruct (check_signature _ _ _ _) as [[]|]; intros [=].
  - destruct req as [[[|cw w]|] [[|cn n]|] [[|cm m]|] [sg|]]; simpl;
      try (intros [=]; fail).
    rewrite (post_present verify st now (cw :: w) (cn :: n) (cm :: m) sg) by discriminate.
    destruct (startsWith (cm :: m) NAME_UPDATE_PREFIX) eqn:Hp; cbn [negb].
    + destruct (24 <? length (cn :: n))%nat; [intros [=]|].
      destruct (check_signature _ _ _ _) as [[]|]; intros [=].
    + intros _. exists (cm :: m). repeat split; [discriminate|exact Hp].
Qed.

Lemma empty_field_is_missing_witness :
  post_display_name toy_verify initial_server
    {| req_walletAddress := Some (address W1); req_displayName := Some [];
       req_message := Some (lit "hello"); req_signature := Some (1 :: repeat 0 63) |} 5
  = (initial_server, error 400 "Missing fields")
  /\ (exists n,
        Some (lit "a name of twenty-five chr") = Some n /\ (24 < length n)%nat)
  /\ (exists m, Some (lit "hello") = Some m /\ m <> []
                /\ startsWith m NAME_UPDATE_PREFIX = false).
Proof.
  split; [|split].
  - apply (proj1 (empty_field_is_missing toy_verify initial_server
      {| req_walletAddress := Some (address W1); req_displayName := Some [];
         req_message := Some (lit "hello"); req_signature := Some (1 :: repeat 0 63) |} 5)).
    right. reflexivity.
  - apply (proj1 (proj2 (empty_field_is_missing toy_verify initial_server
      {| req_walletAddress := Some (address W1);
         req_displayName := Some (lit "a name of twenty-five chr");
         req_message := Some (lit "RENTFREE_NAME_UPDATE_V1:alice");
         req_signature := Some [] |} 5))).
    vm_compute. reflexivity.
  - apply (proj2 (proj2 (empty_field_is_missing toy_verify initial_server
      {| req_walletAddress := Some (address W1); req_displayName := Some (lit "alice");
         req_message := Some (lit "hello"); req_signature := Some [] |} 5))).
    vm_compute. reflexivity.
Defined.

(** ** The cache *)

Lemma cache_fresh_spec (st : server) (mint : jsstring) (now : Z) :
  cache_fresh st mint now = true <-> cache_hit st mint now.
Proof.
  unfold cache_fresh, cache_hit, CACHE_TTL_MS.
  destruct (roomsCache st) as [rooms|].
  - rewrite andb_true_iff, bool_decide_eq_true, Z.ltb_lt.
    split; [intros [? ?]; eauto | intros (_ & ? & ?); eauto].
  - split; [discriminate | intros ([? [=]] & _)].
Qed.

(** C7.  A request for [mint] at time [now] is served from the cache,
    unchanged and flagged [cached: true], exactly when a snapshot is
    stored, it was stored for [mint], and [now - roomsCacheUpdatedAt <
    30000]; otherwise the pipeline runs, and when it succeeds its rooms
    replace the stored snapshot, with [mint] and [now], and are returned
    flagged [cached: false] (when it throws, the stored snapshot stays). *)
Theorem cache_hit_exactly_when_fresh
    (mintPubkey : PublicKey) (rpc : jsstring -> result (list account_data))
    (st : server) (query_mint : option jsstring) (now : Z) (mint : PublicKey)
    (Hmint : requested_mint mintPubkey query_mint = Ok mint) :
  let out := get_rooms mintPubkey rpc st query_mint now in
  let m := toBase58 mint in
  (cache_hit st m now ->
   exists rooms, roomsCache st = Some rooms /\ out = (st, json (RoomsBody rooms true)))
  /\ (~ cache_hit st m now ->
      forall accounts rooms,
        rpc m = Ok accounts -> compute_rooms (db st) accounts = Ok rooms ->
        out = ({| roomsCache := Some rooms; roomsCacheMint := Some m;
                  roomsCacheUpdatedAt := now; db := db st |},
               json (RoomsBody rooms false)))
  /\ (~ cache_hit st m now ->
      forall e, (accounts ← rpc m; compute_rooms (db st) accounts) = Throw e ->
                out = (st, rooms_catch e))
  /\ ((exists rooms, out.2 = json (RoomsBody rooms true)) <-> cache_hit st m now).
Proof.
  intros out m. subst out. unfold get_rooms, rooms_begin. rewrite Hmint. fold m.
  pose proof (cache_fresh_spec st m now) as Hfresh.
  destruct (cache_fresh st m now).
  - assert (cache_hit st m now) as Hhit by (apply Hfresh; reflexivity).
    destruct Hhit as ([rooms Hrooms] & Hm & Ht).
    rewrite Hrooms. simpl.
    split; [|split; [|split]].
    + intros _. exists rooms. split; reflexivity.
    + intros Hno. exfalso. apply Hno. unfold cache_hit. rewrite Hrooms. eauto.
    + intros Hno. exfalso. apply Hno. unfold cache_hit. rewrite Hrooms. eauto.
    + split; [|eauto]. intros _. unfold cache_hit. rewrite Hrooms. eauto.
  - assert (~ cache_hit st m now) as Hno by (intros H; apply Hfresh in H; discriminate).
    unfold rooms_resume.
    split; [|split; [|split]].
    + intros H. contradiction.
    + intros _ accounts rooms -> Hc. simpl. rewrite Hc. reflexivity.
    + intros _ e ->. reflexivity.
    + split; [|intros H; contradiction].
      intros [rooms Hr]. exfalso.
      destruct (rpc m) as [accounts|e]; simpl in Hr.
      * destruct (compute_rooms (db st) accounts); simpl in Hr.
        -- discriminate Hr.
        -- unfold rooms_catch in Hr. destruct (_ || _) in Hr; discriminate Hr.
      * unfold rooms_catch in Hr. destruct (_ || _) in Hr; discriminate Hr.
Qed.

Lemma cache_hit_exactly_when_fresh_witness :
  get_rooms the_mint example_rpc initial_server None 1000
  = (warm_server, json (RoomsBody example_rooms false))
  /\ (exists rooms, roomsCache warm_server = Some rooms
        /\ get_rooms the_mint failing_rpc warm_server None 30999
           = (warm_server, json (RoomsBody rooms true)))
  /\ get_rooms the_mint example_rpc warm_server None 31000
     = ({| roomsCache := Some example_rooms; roomsCacheMint := Some (toBase58 the_mint);
           roomsCacheUpdatedAt := 31000; db := ∅ |},
        json (RoomsBody example_rooms false))
  /\ get_rooms the_mint failing_rpc initial_server None 1000
     = (initial_server, rooms_catch (UpstreamError (lit "429 Too many requests"))).
Proof.
  split; [|split; [|split]].
  - pose proof (cache_hit_exactly_when_fresh the_mint example_rpc initial_server None 1000
                  the_mint eq_refl) as H.
    cbv zeta in H. destruct H as (_ & H & _).
    apply (H ltac:(intros ([? [=]] & _)) example_accounts example_rooms eq_refl).
    vm_compute. reflexivity.
  - pose proof (cache_hit_exactly_when_fresh the_mint failing_rpc warm_server None 30999
                  the_mint eq_refl) as H.
    cbv zeta in H. destruct H as (H & _).
    apply H. split; [eexists; reflexivity|]. split; [reflexivity|]. simpl. lia.
  - pose proof (cache_hit_exactly_when_fresh the_mint example_rpc warm_server None 31000
                  the_mint eq_refl) as H.
    cbv zeta in H. destruct H as (_ & H & _).
    apply (H ltac:(intros (_ & _ & Hlt); simpl in Hlt; lia)
             example_accounts example_rooms eq_refl).
    vm_compute. reflexivity.
  - pose proof (cache_hit_exactly_when_fresh the_mint failing_rpc initial_server None 1000
                  the_mint eq_refl) as H.
    cbv zeta in H. destruct H as (_ & _ & H & _).
    apply (H ltac:(intros ([? [=]] & _))). reflexivity.
Defined.

(** ** The size of a snapshot *)

Lemma compute_rooms_length (d : registry) (accounts : list account_data) (rooms : list room) :
  compute_rooms d accounts = Ok rooms -> (length rooms <= 80)%nat.
Proof.
  intros H. destruct (compute_rooms_inv _ _ _ H) as (top & Htop & ->).
  unfold withRooms. rewrite length_imap.
  unfold top_holders in Htop. destruct (ranked_holders accounts) as [hs|]; [|discriminate].
  simpl in Htop. injection Htop as <-. unfold slice. rewrite length_take.
  change (Z.to_nat MAX_ROOMS - 0)%nat with 80%nat. lia.
Qed.

Lemma rooms_catch_bounded (e : exn) : rooms_bounded (rooms_catch e).
Proof. unfold rooms_catch. destruct (_ || _); exact I. Qed.

Lemma run_event_bounded
    (mintPubkey : PublicKey) (verify : list byte -> list byte -> list byte -> bool)
    (w : world) (ev : event) :
  snapshots_bounded w -> snapshots_bounded (run_event mintPubkey verify w ev).
Proof.
  intros [Hcache Hsent]. destruct ev as [id q now | id fetched | id req now]; simpl.
  - unfold rooms_begin. destruct (requested_mint mintPubkey q) as [mint|e].
    + destruct (cache_fresh (srv w) (toBase58 mint) now) eqn:Hf.
      * split; simpl; [exact Hcache|]. constructor; [|exact Hsent].
        unfold rooms_bounded; simpl.
        destruct (roomsCache (srv w)) as [rooms|]; simpl; [eauto | lia].
      * split; simpl; assumption.
    + split; simpl; [exact Hcache|]. constructor; [|exact Hsent].
      apply rooms_catch_bounded.
  - destruct (find_suspended id (suspended w)) as [[m now]|]; [|split; assumption].
    unfold rooms_resume.
    destruct (accounts ← fetched; compute_rooms (db (srv w)) accounts) as [rooms|e] eqn:Hc.
    + assert (length rooms <= 80)%nat as Hlen.
      { destruct fetched as [accounts|]; simpl in Hc; [|discriminate].
        eapply compute_rooms_length; exact Hc. }
      split; simpl.
      * intros rooms' [= <-]. exact Hlen.
      * constructor; [exact Hlen | exact Hsent].
    + split; simpl; [exact Hcache|]. constructor; [|exact Hsent].
      apply rooms_catch_bounded.
  - destruct (post_display_name verify (srv w) req now) as [st res] eqn:Hpost.
    split; simpl.
    + intros rooms Hr. apply Hcache. rewrite <- Hr.
      unfold post_display_name in Hpost.
      repeat match type of Hpost with
             | context [if ?b then _ else _] => destruct b
             | context [match ?r with Ok _ => _ | Throw _ => _ end] => destruct r
             end; injection Hpost as <- <-; reflexivity.
    + constructor; [|exact Hsent]. simpl.
      unfold post_display_name in Hpost.
      repeat match type of Hpost with
             | context [if ?b then _ else _] => destruct b
             | context [match ?r with Ok _ => _ | Throw _ => _ end] => destruct r
             end; injection Hpost as <- <-; exact I.
Qed.

Lemma run_events_bounded
    (mintPubkey : PublicKey) (verify : list byte -> list byte -> list byte -> bool)
    (evs : list event) (w : world) :
  snapshots_bounded w -> snapshots_bounded (run_events mintPubkey verify w evs).
Proof.
  revert w. induction evs as [|ev evs IH]; intros w Hw; simpl.
  - exact Hw.
  - apply IH. apply run_event_bounded. exact Hw.
Qed.

(** C6.  Whatever the number of holders, the rooms that the pipeline
    produces are at most [MAX_ROOMS] = 80; and after any sequence of
    requests, interleaved in any way, the stored snapshot and every
    directory that was sent have at most 80 rooms. *)
Theorem snapshot_size_at_most_MAX_ROOMS :
  (forall (d : registry) (accounts : list account_data) (rooms : list room),
     compute_rooms d accounts = Ok rooms -> (Z.of_nat (length rooms) <= MAX_ROOMS))
  /\ (forall (mintPubkey : PublicKey)
             (verify : list byte -> list byte -> list byte -> bool) (evs : list event),
        snapshots_bounded (run_events mintPubkey verify initial_world evs)).
Proof.
  split.
  - intros d accounts rooms H. apply compute_rooms_length in H. unfold MAX_ROOMS. lia.
  - intros mintPubkey verify evs. apply run_events_bounded.
    split; simpl; [intros rooms [=] | constructor].
Qed.

Lemma snapshot_size_at_most_MAX_ROOMS_witness :
  (exists rooms, compute_rooms ∅ ninety_accounts = Ok rooms
                 /\ length rooms = 80%nat
                 /\ Z.of_nat (length rooms) <= MAX_ROOMS)
  /\ snapshots_bounded
       (run_events the_mint toy_verify initial_world
          [RoomsRequest 1 None 1000; AccountsSettled 1 (Ok ninety_accounts)]).
Proof.
  split.
  - assert (exists rooms, compute_rooms ∅ ninety_accounts = Ok rooms
                          /\ length rooms = 80%nat) as (rooms & E & L).
    { vm_compute. eexists. split; reflexivity. }
    exists rooms. split; [exact E|]. split; [exact L|].
    exact (proj1 snapshot_size_at_most_MAX_ROOMS ∅ ninety_accounts rooms E).
  - apply (proj2 snapshot_size_at_most_MAX_ROOMS).
Defined.

(** ** Aggregation *)

Lemma lor_shiftl_add (a b n : Z) :
  0 <= n -> 0 <= a < 2 ^ n -> 0 <= b -> Z.lor a (Z.shiftl b n) = a + b * 2 ^ n.
Proof.
  intros Hn Ha Hb.
  assert (Z.land a (Z.shiftl b n) = 0) as Hland.
  { apply Z.bits_inj'. intros k Hk. rewrite Z.land_spec, Z.bits_0.
    destruct (Z.lt_ge_cases k n) as [Hlt|Hge].
    - rewrite Z.shiftl_spec_low by lia. apply andb_false_r.
    - destruct (Z.eq_dec a 0) as [->|Hne]; [rewrite Z.bits_0; reflexivity|].
      rewrite (Z.bits_above_log2 a k); [reflexivity | lia |].
      pose proof (Z.pow_le_mono_r 2 n k ltac:(lia) Hge).
      apply Z.log2_lt_pow2; lia. }
  rewrite <- Z.lxor_lor by exact Hland.
  rewrite <- Z.add_nocarry_lxor by exact Hland.
  rewrite Z.shiftl_mul_pow2 by lia. reflexivity.
Qed.

Lemma byte_val_range (b : byte) : 0 <= byte_val b < 256.
Proof. unfold byte_val. pose proof (Byte.to_N_bounded b). lia. Qed.

Lemma le_value_nonneg (bs : list byte) : 0 <= le_value bs.
Proof.
  induction bs as [|b bs IH]; simpl; [lia|].
  pose proof (byte_val_range b). lia.
Qed.

Lemma read_amount_spec (bs : list byte) (count i : nat) (amount : Z) :
  0 <= amount < 2 ^ (8 * Z.of_nat i) -> (i + count <= length bs)%nat ->
  read_amount bs count i amount
  = Ok (amount + 2 ^ (8 * Z.of_nat i) * le_value (take count (drop i bs))).
Proof.
  revert i amount. induction count as [|count IH]; intros i amount Ha Hlen; simpl.
  - f_equal. lia.
  - destruct (bs !! i) as [b|] eqn:Hb.
    2:{ apply lookup_ge_None in Hb. lia. }
    pose proof (byte_val_range b) as Hbr.
    assert (2 ^ (8 * Z.of_nat (S i)) = 2 ^ (8 * Z.of_nat i) * 256) as Hpow.
    { replace (8 * Z.of_nat (S i)) with (8 * Z.of_nat i + 8) by lia.
      rewrite Z.pow_add_r by lia. reflexivity. }
    assert (0 < 2 ^ (8 * Z.of_nat i)) as Hpos by (apply Z.pow_pos_nonneg; lia).
    rewrite lor_shiftl_add by lia.
    rewrite IH; [| rewrite Hpow; nia | lia].
    rewrite (drop_S bs b i Hb). simpl. f_equal. rewrite Hpow. ring.
Qed.

Lemma of_digits_bytes_bound (bs : list byte) (acc : Z) :
  0 <= acc ->
  0 <= fold_left (fun a d => a * 256 + d) (map byte_val bs) acc
    < (acc + 1) * 256 ^ Z.of_nat (length bs).
Proof.
  revert acc. induction bs as [|b bs IH]; intros acc Hacc; simpl length; simpl fold_left.
  - simpl. lia.
  - pose proof (byte_val_range b) as Hb.
    specialize (IH (acc * 256 + byte_val b) ltac:(lia)).
    rewrite Nat2Z.inj_succ, Z.pow_succ_r by lia.
    assert (0 < 256 ^ Z.of_nat (length bs)) by (apply Z.pow_pos_nonneg; lia).
    nia.
Qed.

Lemma PublicKey_of_owner_bytes (data : account_data) :
  PublicKey_of_bytes (slice 32 64 data)
  = Ok {| _bn := of_digits 256 (map byte_val (slice 32 64 data)) |}.
Proof.
  unfold PublicKey_of_bytes.
  pose proof (of_digits_bytes_bound (slice 32 64 data) 0 (Z.le_refl 0)) as Hb.
  fold (of_digits 256 (map byte_val (slice 32 64 data))) in Hb.
  assert (256 ^ Z.of_nat (length (slice 32 64 data)) <= 2 ^ 256) as Hle.
  { change (2 ^ 256) with (256 ^ 32). apply Z.pow_le_mono_r; [lia|].
    unfold slice. rewrite length_take. lia. }
  destruct (2 ^ 256 <=? _) eqn:E; [|reflexivity].
  apply Z.leb_le in E. lia.
Qed.

Lemma aggregate_account_spec (m : holders_map) (data : account_data) :
  (72 <= length data)%nat ->
  aggregate_account m data
  = Ok (if amount_of data =? 0 then m
        else Map_set m (owner_wallet data)
               (default 0 (Map_get m (owner_wallet data)) + amount_of data)).
Proof.
  intros Hlen. unfold aggregate_account.
  rewrite read_amount_spec; [| simpl; lia | unfold slice; rewrite length_take, length_drop; lia].
  rewrite drop_0, Z.add_0_l. simpl (8 * Z.of_nat 0). rewrite Z.pow_0_r, Z.mul_1_l.
  assert (take 8 (slice 64 72 data) = slice 64 72 data) as ->.
  { apply take_ge. unfold slice. rewrite length_take. lia. }
  fold (amount_of data). simpl.
  destruct (amount_of data =? 0); [reflexivity|].
  rewrite PublicKey_of_owner_bytes. reflexivity.
Qed.

Lemma Map_get_set (m : holders_map) (k k' : jsstring) (v : Z) :
  Map_get (Map_set m k v) k' = if decide (k = k') then Some v else Map_get m k'.
Proof.
  induction m as [|[k0 v0] m IH]; simpl.
  - destruct (decide (k = k')); reflexivity.
  - destruct (decide (k0 = k)) as [->|Hne]; simpl.
    + destruct (decide (k = k')); reflexivity.
    + rewrite IH. destruct (decide (k0 = k')) as [->|]; [|reflexivity].
      destruct (decide (k = k')); [congruence | reflexivity].
Qed.

Lemma Map_set_keys_old (m : holders_map) (k : jsstring) (v : Z) :
  k ∈ m.*1 -> (Map_set m k v).*1 = m.*1.
Proof.
  induction m as [|[k0 v0] m IH]; intros Hin.
  - inversion Hin.
  - cbn [Map_set]. destruct (decide (k0 = k)) as [->|Hne]; [reflexivity|].
    rewrite !fmap_cons. rewrite IH; [reflexivity|].
    rewrite fmap_cons in Hin. apply elem_of_cons in Hin as [->|Hin]; [|exact Hin].
    simpl in Hne. congruence.
Qed.

Lemma Map_set_keys_new (m : holders_map) (k : jsstring) (v : Z) :
  k ∉ m.*1 -> (Map_set m k v).*1 = m.*1 ++ [k].
Proof.
  induction m as [|[k0 v0] m IH]; intros Hnin.
  - reflexivity.
  - cbn [Map_set]. rewrite fmap_cons in Hnin. apply not_elem_of_cons in Hnin as [Hne Hnin].
    simpl in Hne. destruct (decide (k0 = k)) as [->|_]; [congruence|].
    rewrite !fmap_cons, IH by exact Hnin. reflexivity.
Qed.

Lemma total_amount_cons (w : jsstring) (data : account_data) (accounts : list account_data) :
  total_amount w (data :: accounts)
  = (if decide (owner_wallet data = w) then amount_of data else 0) + total_amount w accounts.
Proof.
  unfold total_amount. rewrite filter_cons.
  destruct (decide (owner_wallet data = w)); reflexivity.
Qed.

Lemma aggregate_invariant (accounts : list account_data) (m0 : holders_map) :
  Forall (fun data => (72 <= length data)%nat) accounts ->
  positive_values m0 -> NoDup m0.*1 ->
  exists m, aggregate m0 accounts = Ok m
    /\ positive_values m /\ NoDup m.*1
    /\ (forall w, default 0 (Map_get m w) = default 0 (Map_get m0 w) + total_amount w accounts)
    /\ m.*1 = m0.*1 ++ first_occurrences m0.*1
                         (map owner_wallet (filter (fun data => amount_of data <> 0) accounts)).
Proof.
  revert m0. induction accounts as [|data accounts IH]; intros m0 Hlen Hpos Hnd.
  - exists m0. simpl. repeat split; try assumption.
    + intros w. unfold total_amount. simpl. lia.
    + rewrite app_nil_r. reflexivity.
  - apply Forall_cons in Hlen as [Hd Hlen]. simpl.
    rewrite aggregate_account_spec by exact Hd. simpl.
    rewrite filter_cons.
    pose proof (le_value_nonneg (slice 64 72 data)) as Hnn. fold (amount_of data) in Hnn.
    destruct (Z.eqb_spec (amount_of data) 0) as [Hz|Hnz].
    + destruct (IH m0 Hlen Hpos Hnd) as (m & Hm & Hp & Hn & Hsum & Hkeys).
      exists m. repeat split; try assumption.
      * intros w. rewrite Hsum, total_amount_cons, Hz.
        destruct (decide (owner_wallet data = w)); lia.
      * rewrite Hkeys. destruct (decide (amount_of data <> 0)); [contradiction | reflexivity].
    + set (w0 := owner_wallet data) in *.
      set (m1 := Map_set m0 w0 (default 0 (Map_get m0 w0) + amount_of data)).
      assert (0 <= default 0 (Map_get m0 w0)) as Hcur.
      { destruct (Map_get m0 w0) as [v|] eqn:E; simpl; [|lia]. apply Hpos in E. lia. }
      assert (positive_values m1) as Hpos1.
      { intros k v. unfold m1. rewrite Map_get_set.
        destruct (decide (w0 = k)); [intros [= <-]; lia | apply Hpos]. }
      assert (NoDup m1.*1) as Hnd1.
      { unfold m1. destruct (decide (w0 ∈ m0.*1)) as [Hin|Hnin];
          [rewrite Map_set_keys_old by exact Hin; exact Hnd|].
        rewrite Map_set_keys_new by exact Hnin.
        apply NoDup_app. split; [exact Hnd|]. split; [|apply NoDup_singleton].
        intros x Hx Hx'. apply list_elem_of_singleton in Hx'. subst x. contradiction. }
      destruct (IH m1 Hlen Hpos1 Hnd1) as (m & Hm & Hp & Hn & Hsum & Hkeys).
      exists m. repeat split; try assumption.
      * intros w. rewrite Hsum, total_amount_cons. unfold m1. rewrite Map_get_set.
        fold w0. destruct (decide (w0 = w)) as [<-|]; simpl; lia.
      * rewrite Hkeys. destruct (decide (amount_of data <> 0)); [|contradiction].
        cbn [map first_occurrences]. fold w0. unfold m1.
        destruct (decide (w0 ∈ m0.*1)) as [Hin|Hnin].
        -- rewrite Map_set_keys_old by exact Hin. reflexivity.
        -- rewrite Map_set_keys_new by exact Hnin. rewrite <- app_assoc. reflexivity.
Qed.

(** ** Sorting *)

Section Sorting.

Context {A : Type} (cmp : A -> A -> Z) (R : relation A).
Hypothesis R_trans : Transitive R.
Hypothesis cmp_after : forall x y, 0 < cmp x y -> R y x.
Hypothesis cmp_before : forall x y, cmp x y <= 0 -> R x y.

Lemma sort_insert_perm (x : A) (s : list A) : sort_insert cmp x s ≡ₚ x :: s.
Proof.
  induction s as [|y s IH]; simpl; [reflexivity|].
  destruct (0 <? cmp x y); [|reflexivity].
  rewrite IH. apply Permutation_swap.
Qed.

Lemma Array_sort_perm (l : list A) : Array_sort cmp l ≡ₚ l.
Proof.
  induction l as [|x l IH]; simpl; [reflexivity|].
  rewrite sort_insert_perm, IH. reflexivity.
Qed.

Lemma sort_insert_sorted (x : A) (s : list A) :
  StronglySorted R s -> StronglySorted R (sort_insert cmp x s).
Proof.
  induction s as [|y s IH]; intros Hs; simpl.
  - repeat constructor.
  - apply StronglySorted_inv in Hs as [Hs Hy].
    destruct (Z.ltb_spec 0 (cmp x y)) as [Hgt|Hle].
    + constructor; [apply IH; exact Hs|].
      rewrite sort_insert_perm. constructor; [apply cmp_after; exact Hgt | exact Hy].
    + assert (R x y) as Hxy by (apply cmp_before; exact Hle).
      constructor; [constructor; assumption|].
      constructor; [exact Hxy|].
      eapply Forall_impl; [exact Hy|]. intros z Hz. etransitivity; eassumption.
Qed.

Lemma Array_sort_sorted (l : list A) : StronglySorted R (Array_sort cmp l).
Proof.
  induction l as [|x l IH]; simpl; [constructor|].
  apply sort_insert_sorted. exact IH.
Qed.

(** Stability: within a class [P] of elements that the comparator does not
    tell apart, sorting changes nothing. *)
Lemma sort_insert_filter (P : A -> Prop) `{!forall x, Decision (P x)} (x : A) (s : list A) :
  (forall y z, P y -> P z -> cmp y z <= 0) ->
  filter P (sort_insert cmp x s) = filter P (x :: s).
Proof.
  intros Hclass. induction s as [|y s IH]; simpl; [reflexivity|].
  destruct (Z.ltb_spec 0 (cmp x y)) as [Hgt|Hle]; [|reflexivity].
  rewrite (filter_cons P y), IH, !(filter_cons P x), (filter_cons P y).
  destruct (decide (P x)) as [Hx|Hx]; [|reflexivity].
  destruct (decide (P y)) as [Hy|Hy]; [|reflexivity].
  specialize (Hclass x y Hx Hy). lia.
Qed.

Lemma Array_sort_filter (P : A -> Prop) `{!forall x, Decision (P x)} (l : list A) :
  (forall y z, P y -> P z -> cmp y z <= 0) ->
  filter P (Array_sort cmp l) = filter P l.
Proof.
  intros Hclass. induction l as [|x l IH]; simpl; [reflexivity|].
  rewrite sort_insert_filter by exact Hclass.
  rewrite !filter_cons, IH. reflexivity.
Qed.

End Sorting.

Lemma sublist_filter_mono {A} (P : A -> Prop) `{!forall x, Decision (P x)} (l1 l2 : list A) :
  l1 `sublist_of` l2 -> filter P l1 `sublist_of` filter P l2.
Proof.
  induction 1 as [|x l1 l2 _ IH|x l1 l2 _ IH]; [constructor| |].
  - rewrite !filter_cons. destruct (decide (P x)); [constructor|]; exact IH.
  - rewrite filter_cons. destruct (decide (P x)); [constructor|]; exact IH.
Qed.

Lemma sublist_pair_lookup {A} (l : list A) (i j : nat) (a b : A) :
  (i < j)%nat -> l !! i = Some a -> l !! j = Some b -> [a; b] `sublist_of` l.
Proof.
  intros Hij Ha Hb.
  rewrite <- (take_drop_middle l i a Ha).
  apply sublist_inserts_l. constructor.
  apply singleton_sublist_l. apply list_elem_of_lookup. exists (j - S i)%nat.
  rewrite lookup_drop. replace (S i + (j - S i))%nat with j by lia. exact Hb.
Qed.

Lemma sublist_pair_inv {A} (l : list A) (a b : A) :
  [a; b] `sublist_of` l ->
  exists i j, (i < j)%nat /\ l !! i = Some a /\ l !! j = Some b.
Proof.
  induction l as [|x l IH]; intros H.
  - apply sublist_nil_r in H. discriminate.
  - apply sublist_cons_r in H as [H|(l' & [= <- <-] & H)].
    + destruct (IH H) as (i & j & Hij & Ha & Hb). exists (S i), (S j).
      split; [lia|]. split; assumption.
    + apply singleton_sublist_l, list_elem_of_lookup in H as [j Hj].
      exists 0%nat, (S j). split; [lia|]. split; [reflexivity | exact Hj].
Qed.

Lemma number_le_trans (x y z : number) : number_le x y -> number_le y z -> number_le x z.
Proof. destruct x, y, z; simpl; try tauto; lia. Qed.

Global Instance outranks_trans : Transitive outranks.
Proof. intros a b c Hab Hbc. unfold outranks in *. eapply number_le_trans; eassumption. Qed.

Lemma compareFn_after (x y : holder) : 0 < compareFn x y -> outranks y x.
Proof.
  unfold compareFn, outranks. destruct (h_balance y), (h_balance x); simpl; try lia.
Qed.

Lemma compareFn_before (x y : holder) : compareFn x y <= 0 -> outranks x y.
Proof.
  unfold compareFn, outranks. destruct (h_balance y), (h_balance x); simpl; try lia.
Qed.

Lemma compareFn_equal (x y : holder) : h_balance x = h_balance y -> compareFn x y = 0.
Proof.
  unfold compareFn. intros ->. destruct (h_balance y); [|reflexivity].
  rewrite Z.sub_diag. reflexivity.
Qed.

(** ** From the accounts to the rooms *)

Lemma Map_get_elem (m : holders_map) (w : jsstring) (v : Z) :
  NoDup m.*1 -> (w, v) ∈ m -> Map_get m w = Some v.
Proof.
  induction m as [|[k0 v0] m IH]; intros Hnd Hin; [inversion Hin|].
  rewrite fmap_cons in Hnd. apply NoDup_cons in Hnd as [Hk0 Hnd].
  apply elem_of_cons in Hin as [[= -> ->]|Hin]; simpl.
  - destruct (decide (k0 = k0)); [reflexivity | congruence].
  - destruct (decide (k0 = w)) as [->|_]; [|apply IH; assumption].
    exfalso. apply Hk0. apply list_elem_of_fmap. exists (w, v). split; [reflexivity | exact Hin].
Qed.

Lemma to_holders_wallets (m : holders_map) : h_walletAddress <$> to_holders m = m.*1.
Proof.
  unfold to_holders. induction m as [|[k v] m IH]; simpl; [reflexivity|].
  f_equal. exact IH.
Qed.

Lemma to_holders_elem (m : holders_map) (h : holder) :
  h ∈ to_holders m ->
  exists v, (h_walletAddress h, v) ∈ m /\ h_balance h = Number_of_BigInt v.
Proof.
  unfold to_holders. intros Hin. apply list_elem_of_In, in_map_iff in Hin as ([k v] & <- & Hin).
  exists v. simpl. split; [apply list_elem_of_In; exact Hin | reflexivity].
Qed.

(** What a run of the pipeline on well-sized records looks like. *)
Lemma pipeline_shape (accounts : list account_data) :
  Forall (fun data => length data = 165%nat) accounts ->
  exists m, aggregate [] accounts = Ok m
    /\ positive_values m /\ NoDup m.*1
    /\ (forall w, default 0 (Map_get m w) = total_amount w accounts)
    /\ m.*1 = appearance accounts
    /\ top_holders accounts = Ok (take 80 (Array_sort compareFn (to_holders m)))
    /\ forall d, compute_rooms d accounts
                 = Ok (withRooms d (take 80 (Array_sort compareFn (to_holders m)))).
Proof.
  intros Hsize.
  destruct (aggregate_invariant accounts []) as (m & Hm & Hpos & Hnd & Hsum & Hkeys).
  - eapply Forall_impl; [exact Hsize|]. intros data Hd. simpl in Hd. lia.
  - intros k v [=].
  - constructor.
  - exists m. repeat split; try assumption.
    + unfold compute_rooms, top_holders, ranked_holders. rewrite Hm. reflexivity.
    + intros d. unfold compute_rooms, top_holders, ranked_holders. rewrite Hm. reflexivity.
Qed.

Lemma top_holder_total (accounts : list account_data) (m : holders_map) (h : holder) :
  positive_values m -> NoDup m.*1 ->
  (forall w, default 0 (Map_get m w) = total_amount w accounts) ->
  h ∈ take 80 (Array_sort compareFn (to_holders m)) ->
  h_balance h = Number_of_BigInt (total_amount (h_walletAddress h) accounts)
  /\ 0 < total_amount (h_walletAddress h) accounts.
Proof.
  intros Hpos Hnd Hsum Hin.
  pose proof (elem_of_sublist _ _ _ Hin (sublist_take _ _)) as Hin'.
  rewrite (Array_sort_perm compareFn) in Hin'.
  destruct (to_holders_elem _ _ Hin') as (v & Hv & Hbal).
  apply (Map_get_elem _ _ _ Hnd) in Hv.
  rewrite <- Hsum, Hv. simpl. split; [exact Hbal | exact (Hpos _ _ Hv)].
Qed.

Lemma withRooms_wallets (d : registry) (top : list holder) :
  walletAddress <$> withRooms d top = h_walletAddress <$> top.
Proof.
  apply list_eq. intros i. rewrite !list_lookup_fmap. unfold withRooms.
  rewrite list_lookup_imap. destruct (top !! i); reflexivity.
Qed.

(** C3.  On records of 165 bytes the aggregation succeeds and yields one
    entry per wallet, keyed by the address of the owner field (bytes
    [32,64)) and holding the exact sum of the little-endian u64 amounts
    (bytes [64,72)) of all the records of that owner; a wallet whose
    amounts sum to zero has no entry, and no room of the directory.  The
    records W1:500, W2:0, W1:300 aggregate to W1:800 alone. *)
Theorem aggregation_one_entry_per_owner :
  (forall accounts : list account_data,
     Forall (fun data => length data = 165%nat) accounts ->
     exists m, aggregate [] accounts = Ok m
       /\ NoDup m.*1
       /\ (forall w, Map_get m w
                     = if total_amount w accounts =? 0 then None
                       else Some (total_amount w accounts))
       /\ forall d : registry, exists rooms,
            compute_rooms d accounts = Ok rooms
            /\ NoDup (walletAddress <$> rooms)
            /\ forall r, r ∈ rooms -> 0 < total_amount (walletAddress r) accounts)
  /\ aggregate [] example_accounts = Ok [(address W1, 800)].
Proof.
  split; [|vm_compute; reflexivity].
  intros accounts Hsize.
  destruct (pipeline_shape accounts Hsize) as (m & Hm & Hpos & Hnd & Hsum & _ & _ & Hrooms).
  exists m. split; [exact Hm|]. split; [exact Hnd|]. split.
  - intros w. rewrite <- Hsum. destruct (Map_get m w) as [v|] eqn:E; simpl; [|reflexivity].
    apply Hpos in E. destruct (Z.eqb_spec v 0); [lia | reflexivity].
  - intros d. eexists. split; [apply Hrooms|]. split.
    + rewrite withRooms_wallets.
      eapply sublist_NoDup; [|apply fmap_sublist, sublist_take].
      rewrite (Array_sort_perm compareFn), to_holders_wallets. exact Hnd.
    + intros r Hr. apply list_elem_of_lookup in Hr as [i Hi].
      destruct (withRooms_lookup _ _ _ _ Hi) as (h & Hh & -> & _).
      eapply top_holder_total; try eassumption.
      apply list_elem_of_lookup. eauto.
Qed.

Lemma aggregation_one_entry_per_owner_witness :
  exists m, aggregate [] example_accounts = Ok m
    /\ m = [(address W1, 800)]
    /\ NoDup m.*1
    /\ Map_get m (address W1) = Some 800
    /\ Map_get m (address W2) = None.
Proof.
  destruct (proj1 aggregation_one_entry_per_owner example_accounts) as (m & Hm & Hnd & Hget & _).
  - repeat constructor.
  - exists m. split; [exact Hm|].
    split; [|split; [exact Hnd|split]].
    + assert (aggregate [] example_accounts = Ok [(address W1, 800)]) as E
        by (vm_compute; reflexivity).
      rewrite E in Hm. injection Hm as <-. reflexivity.
    + rewrite Hget. vm_compute. reflexivity.
    + rewrite Hget. vm_compute. reflexivity.
Defined.

(** ** Doubles and their rendering *)

Lemma round53_large (n : Z) : 2 ^ 53 <= n -> 2 ^ 53 <= round53 n.
Proof.
  intros Hn. unfold round53.
  destruct (Z.ltb_spec n (2 ^ 53)) as [Hlt|_]; [lia|].
  assert (53 <= Z.log2 n) as Hlog.
  { rewrite <- (Z.log2_pow2 53) by lia. apply Z.log2_le_mono. exact Hn. }
  set (e := Z.log2 n - 52).
  assert (0 < 2 ^ e) as Hpe by (apply Z.pow_pos_nonneg; lia).
  assert (2 ^ Z.log2 n = 2 ^ 52 * 2 ^ e) as Hsplit.
  { rewrite <- Z.pow_add_r by lia. f_equal. lia. }
  assert (2 ^ 52 <= Z.shiftr n e) as Hq.
  { rewrite Z.shiftr_div_pow2 by lia.
    apply Z.div_le_lower_bound; [lia|].
    pose proof (Z.log2_spec n ltac:(lia)) as [Hlo _]. lia. }
  match goal with |- _ <= Z.shiftl ?q' e => assert (2 ^ 52 <= q') as Hq' end.
  { destruct (_ || _); lia. }
  rewrite Z.shiftl_mul_pow2 by lia.
  assert (2 ^ 53 <= 2 ^ Z.log2 n) by (apply Z.pow_le_mono_r; lia).
  nia.
Qed.

Lemma Number_of_BigInt_safe (v : Z) : v < 2 ^ 53 -> Number_of_BigInt v = Fin v.
Proof.
  intros Hv. unfold Number_of_BigInt, round53.
  destruct (Z.ltb_spec v (2 ^ 53)); [|lia].
  destruct (Z.ltb_spec v (2 ^ 1024)); [reflexivity|].
  assert (2 ^ 53 <= 2 ^ 1024) by (apply Z.pow_le_mono_r; lia). lia.
Qed.

Lemma Number_of_BigInt_unsafe (c v : Z) :
  v < 2 ^ 53 -> 2 ^ 53 <= c -> Number_of_BigInt c <> Fin v.
Proof.
  intros Hv Hc. unfold Number_of_BigInt.
  pose proof (round53_large c Hc).
  destruct (_ <? _); [intros [= E]; lia | discriminate].
Qed.

Lemma shortest_at_safe (v d k c : Z) :
  0 < v < 2 ^ 53 -> shortest_at v d k = Some c -> c = v.
Proof.
  intros Hv. unfold shortest_at.
  set (p := 10 ^ (d - k)). set (lo := v / p * p).
  assert (0 <= p) as Hp by (apply Z.pow_nonneg; lia).
  assert ((match Number_of_BigInt lo with Fin w => w =? v | PosInf => false end) = true
          -> lo = v) as Hlo.
  { assert (lo <= v) as Hle.
    { destruct (Z.eq_dec p 0) as [E|Hne].
      - unfold lo. rewrite E, Z.mul_0_r. lia.
      - unfold lo. rewrite Z.mul_comm. apply Z.mul_div_le. lia. }
    rewrite Number_of_BigInt_safe by lia. apply Z.eqb_eq. }
  assert ((match Number_of_BigInt (lo + p) with Fin w => w =? v | PosInf => false end)
          = false) as Hhi.
  { destruct (Z.eq_dec p 0) as [E|Hne].
    - assert (lo = 0) as -> by (unfold lo; rewrite E; apply Z.mul_0_r).
      rewrite E. change (Number_of_BigInt (0 + 0)) with (Fin 0). apply Z.eqb_neq. lia.
    - assert (v < lo + p) as Hlt.
      { unfold lo. pose proof (Z.mod_pos_bound v p ltac:(lia)).
        pose proof (Z.div_mod v p Hne). lia. }
      destruct (Z.lt_ge_cases (lo + p) (2 ^ 53)) as [Hs|Hl].
      + rewrite Number_of_BigInt_safe by exact Hs. apply Z.eqb_neq. lia.
      + pose proof (Number_of_BigInt_unsafe (lo + p) v ltac:(lia) Hl) as Hne'.
        destruct (Number_of_BigInt (lo + p)) as [w|]; [|reflexivity].
        apply Z.eqb_neq. congruence. }
  rewrite Hhi.
  destruct (match Number_of_BigInt lo with Fin w => w =? v | PosInf => false end);
    [|discriminate].
  intros [= <-]. apply Hlo. reflexivity.
Qed.

Lemma shortest_safe (v : Z) : 0 < v < 2 ^ 53 -> shortest v = v.
Proof.
  intros Hv. unfold shortest. generalize (ndigits v) at 2. generalize 1.
  induction (Z.to_nat (ndigits v)) as [|fuel IH]; intros k d; simpl; [reflexivity|].
  destruct (shortest_at v d k) as [c|] eqn:E; [|apply IH].
  eapply shortest_at_safe; eassumption.
Qed.

Lemma ndigits_aux_bound (fuel : nat) (k n : Z) :
  1 <= k -> n < 10 ^ k -> ndigits_aux fuel n <= k.
Proof.
  revert k n. induction fuel as [|fuel IH]; intros k n Hk Hn; simpl; [lia|].
  destruct (Z.ltb_spec n 10) as [|Hge]; [lia|].
  assert (2 <= k) as Hk2.
  { destruct (Z.eq_dec k 1) as [->|]; [simpl in Hn; lia | lia]. }
  assert (n / 10 < 10 ^ (k - 1)) as Hdiv.
  { apply Z.div_lt_upper_bound; [lia|].
    rewrite <- Z.pow_succ_r by lia. replace (Z.succ (k - 1)) with k by lia. exact Hn. }
  specialize (IH (k - 1) (n / 10) ltac:(lia) Hdiv). lia.
Qed.

Lemma Number_toString_safe (v : Z) :
  0 < v < 2 ^ 53 -> Number_toString (Number_of_BigInt v) = decimal v.
Proof.
  intros Hv. rewrite Number_of_BigInt_safe by lia. unfold Number_toString.
  destruct (Z.eqb_spec v 0); [lia|].
  rewrite shortest_safe by exact Hv.
  assert (ndigits v <= 21) as Hd.
  { apply ndigits_aux_bound; [lia|].
    assert (2 ^ 53 < 10 ^ 21) by reflexivity. lia. }
  destruct (Z.leb_spec (ndigits v) 21); [reflexivity | lia].
Qed.

(** A room of the directory and the holder it was made from. *)
Lemma room_listing (d : registry) (accounts : list account_data) (m : holders_map)
    (i : nat) (r : room) :
  positive_values m -> NoDup m.*1 ->
  (forall w, default 0 (Map_get m w) = total_amount w accounts) ->
  withRooms d (take 80 (Array_sort compareFn (to_holders m))) !! i = Some r ->
  exists h, take 80 (Array_sort compareFn (to_holders m)) !! i = Some h
    /\ walletAddress r = h_walletAddress h
    /\ h_balance h = Number_of_BigInt (total_amount (walletAddress r) accounts)
    /\ balance r
       = Number_toString (Number_of_BigInt (total_amount (walletAddress r) accounts))
    /\ 0 < total_amount (walletAddress r) accounts.
Proof.
  intros Hpos Hnd Hsum Hi.
  destruct (withRooms_lookup _ _ _ _ Hi) as (h & Hh & Hw & _ & _ & Hb & _).
  destruct (top_holder_total accounts m h Hpos Hnd Hsum) as [Hbal Htot].
  { apply list_elem_of_lookup. eauto. }
  exists h. rewrite Hw, Hb, Hbal. repeat split; assumption.
Qed.

Lemma number_le_safe (a b : Z) :
  b < 2 ^ 53 -> number_le (Number_of_BigInt a) (Number_of_BigInt b) -> a <= b.
Proof.
  intros Hb. rewrite (Number_of_BigInt_safe b Hb).
  destruct (Z.lt_ge_cases a (2 ^ 53)) as [Ha|Ha].
  - rewrite (Number_of_BigInt_safe a Ha). simpl. lia.
  - unfold Number_of_BigInt. pose proof (round53_large a Ha).
    destruct (_ <? _); simpl; [lia | tauto].
Qed.

(** ** Roles *)

Lemma StronglySorted_lookup {A} (R : relation A) (l : list A) (i j : nat) (a b : A) :
  StronglySorted R l -> (i < j)%nat -> l !! i = Some a -> l !! j = Some b -> R a b.
Proof.
  intros Hs. revert i j. induction Hs as [|x l Hs IH Hx]; intros i j Hij Ha Hb.
  - discriminate.
  - destruct j as [|j]; [lia|]. destruct i as [|i]; simpl in *.
    + injection Ha as <-. rewrite Forall_forall in Hx. apply Hx.
      apply list_elem_of_lookup. eauto.
    + apply (IH i j); [lia | assumption..].
Qed.

Lemma top_sorted (m : holders_map) (i j : nat) (a b : holder) :
  (i < j)%nat ->
  take 80 (Array_sort compareFn (to_holders m)) !! i = Some a ->
  take 80 (Array_sort compareFn (to_holders m)) !! j = Some b ->
  outranks a b.
Proof.
  intros Hij Ha Hb.
  apply lookup_take_Some in Ha as [Ha _]. apply lookup_take_Some in Hb as [Hb _].
  eapply (StronglySorted_lookup outranks); [|exact Hij|exact Ha|exact Hb].
  apply (Array_sort_sorted compareFn outranks _ compareFn_after compareFn_before).
Qed.

Lemma count_landlords_from (d : registry) (top : list holder) (k : nat) :
  count_role Landlord
    (imap (fun index h =>
             {| walletAddress := h_walletAddress h;
                roomNumber := hashToRoom (h_walletAddress h) MAX_ROOMS;
                role := if Z.of_nat (k + index) <? LANDLORD_TOP_N then Landlord else Tenant;
                balance := Number_toString (h_balance h);
                displayName := name <$> d !! h_walletAddress h |}) top)
  = Nat.min (length top) (10 - k).
Proof.
  unfold count_role. revert k. induction top as [|h top IH]; intros k; [reflexivity|].
  rewrite imap_cons, filter_cons. cbn [role length].
  rewrite (imap_ext _ (fun index h =>
             {| walletAddress := h_walletAddress h;
                roomNumber := hashToRoom (h_walletAddress h) MAX_ROOMS;
                role := if Z.of_nat (S k + index) <? LANDLORD_TOP_N then Landlord else Tenant;
                balance := Number_toString (h_balance h);
                displayName := name <$> d !! h_walletAddress h |})).
  2:{ intros i x _. simpl. replace (k + S i)%nat with (S (k + i)) by lia. reflexivity. }
  unfold LANDLORD_TOP_N in *.
  destruct (Z.ltb_spec (Z.of_nat (k + 0)) 10) as [Hlt|Hge].
  - destruct (decide (Landlord = Landlord)); [|congruence].
    cbn [length]. rewrite IH. lia.
  - destruct (decide (Tenant = Landlord)); [congruence|].
    rewrite IH. lia.
Qed.

(** C5.  In the directory computed from any records of 165 bytes, the
    number of Landlords is the minimum of the number of rooms and
    [LANDLORD_TOP_N] = 10, a room is a Landlord exactly when it is among
    the first 10 in rank order and a Tenant otherwise, and the balance
    that a Landlord is listed with (the double nearest to the sum of its
    amounts) is never smaller than the balance that a Tenant is listed
    with; below [2^53] this is the order of the sums themselves. *)
Theorem landlords_are_the_first_ten
    (d : registry) (accounts : list account_data)
    (Hsize : Forall (fun data => length data = 165%nat) accounts) :
  exists rooms,
    compute_rooms d accounts = Ok rooms
    /\ Z.of_nat (count_role Landlord rooms) = Z.min (Z.of_nat (length rooms)) LANDLORD_TOP_N
    /\ (forall i r, rooms !! i = Some r ->
          role r = if Z.of_nat i <? LANDLORD_TOP_N then Landlord else Tenant)
    /\ (forall ri rj, ri ∈ rooms -> rj ∈ rooms ->
          role ri = Landlord -> role rj = Tenant ->
          let bi := Number_of_BigInt (total_amount (walletAddress ri) accounts) in
          let bj := Number_of_BigInt (total_amount (walletAddress rj) accounts) in
          balance ri = Number_toString bi /\ balance rj = Number_toString bj
          /\ number_le bj bi
          /\ (total_amount (walletAddress ri) accounts < 2 ^ 53 ->
              total_amount (walletAddress rj) accounts
              <= total_amount (walletAddress ri) accounts)).
Proof.
  destruct (pipeline_shape accounts Hsize) as (m & _ & Hpos & Hnd & Hsum & _ & _ & Hrooms).
  eexists. split; [apply Hrooms|].
  split; [|split].
  - unfold withRooms at 1.
    rewrite (count_landlords_from d _ 0). unfold withRooms. rewrite length_imap.
    unfold LANDLORD_TOP_N. lia.
  - intros i r Hi. destruct (withRooms_lookup _ _ _ _ Hi) as (h & _ & _ & _ & Hr & _).
    exact Hr.
  - intros ri rj Hi Hj Hl Ht bi bj.
    apply list_elem_of_lookup in Hi as [i Hi]. apply list_elem_of_lookup in Hj as [j Hj].
    destruct (room_listing _ _ _ _ _ Hpos Hnd Hsum Hi) as (hi & Hhi & _ & Hbi & Hsi & _).
    destruct (room_listing _ _ _ _ _ Hpos Hnd Hsum Hj) as (hj & Hhj & _ & Hbj & Hsj & _).
    destruct (withRooms_lookup _ _ _ _ Hi) as (? & _ & _ & _ & Hri & _).
    destruct (withRooms_lookup _ _ _ _ Hj) as (? & _ & _ & _ & Hrj & _).
    rewrite Hl in Hri. rewrite Ht in Hrj.
    destruct (Z.ltb_spec (Z.of_nat i) LANDLORD_TOP_N); [|discriminate].
    destruct (Z.ltb_spec (Z.of_nat j) LANDLORD_TOP_N); [discriminate|].
    assert (number_le bj bi) as Hle.
    { subst bi bj. rewrite <- Hbi, <- Hbj.
      apply (top_sorted m i j hi hj); [lia | assumption..]. }
    split; [exact Hsi|]. split; [exact Hsj|]. split; [exact Hle|].
    intros Hsafe. apply number_le_safe; assumption.
Qed.

Lemma ninety_accounts_sized : Forall (fun data => length data = 165%nat) ninety_accounts.
Proof. apply (bool_decide_unpack _). vm_compute. exact I. Qed.

Lemma landlords_are_the_first_ten_witness :
  exists rooms,
    compute_rooms ∅ ninety_accounts = Ok rooms
    /\ length rooms = 80%nat
    /\ Z.of_nat (count_role Landlord rooms) = 10
    /\ (forall ri rj, rooms !! 9%nat = Some ri -> rooms !! 10%nat = Some rj ->
          role ri = Landlord /\ role rj = Tenant
          /\ total_amount (walletAddress rj) ninety_accounts
             <= total_amount (walletAddress ri) ninety_accounts).
Proof.
  destruct (landlords_are_the_first_ten ∅ ninety_accounts ninety_accounts_sized)
    as (rooms & Hrooms & Hcount & Hrole & Hbal).
  exists rooms. split; [exact Hrooms|].
  pose proof Hrooms as E. vm_compute in E. injection E as <-.
  split; [reflexivity|]. split; [rewrite Hcount; reflexivity|].
  intros ri rj Hi Hj.
  pose proof (Hrole _ _ Hi) as Hr9. pose proof (Hrole _ _ Hj) as Hr10.
  change (role ri = Landlord) in Hr9. change (role rj = Tenant) in Hr10.
  split; [exact Hr9|]. split; [exact Hr10|].
  apply (Hbal ri rj); [apply list_elem_of_lookup; eauto .. | exact Hr9 | exact Hr10 |].
  vm_compute in Hi. injection Hi as <-. vm_compute. reflexivity.
Defined.

(** ** The order of the directory *)

Lemma top_ties_keep_map_order (m : holders_map) (i j : nat) (a b : holder) :
  (i < j)%nat ->
  take 80 (Array_sort compareFn (to_holders m)) !! i = Some a ->
  take 80 (Array_sort compareFn (to_holders m)) !! j = Some b ->
  h_balance a = h_balance b ->
  [h_walletAddress a; h_walletAddress b] `sublist_of` m.*1.
Proof.
  intros Hij Ha Hb Heq.
  pose proof (sublist_pair_lookup _ i j a b Hij Ha Hb) as Hsub.
  assert ([a; b] `sublist_of` Array_sort compareFn (to_holders m)) as Hsub'.
  { etransitivity; [exact Hsub | apply sublist_take]. }
  apply (sublist_filter_mono (fun h => h_balance h = h_balance a)) in Hsub'.
  rewrite Array_sort_filter in Hsub'.
  2:{ intros y z Hy Hz. rewrite compareFn_equal; [lia | congruence]. }
  rewrite !filter_cons, filter_nil in Hsub'.
  destruct (decide (h_balance a = h_balance a)); [|congruence].
  destruct (decide (h_balance b = h_balance a)); [|congruence].
  rewrite <- to_holders_wallets.
  change [h_walletAddress a; h_walletAddress b] with (h_walletAddress <$> [a; b]).
  apply fmap_sublist. etransitivity; [exact Hsub' | apply sublist_filter].
Qed.

(** C1, as the code has it.  The directory computed from records of 165
    bytes is sorted by descending balance, the balance being the double
    it is listed with (the one nearest to the sum of the amounts); no
    wallet order is applied to rooms with the same balance: they stand in
    the order in which their wallets first appear, with a non-zero amount,
    in the upstream response.  The ranking is thus a function of the
    response, order included. *)
Theorem ranking_descending_ties_by_appearance
    (d : registry) (accounts : list account_data)
    (Hsize : Forall (fun data => length data = 165%nat) accounts) :
  exists rooms,
    compute_rooms d accounts = Ok rooms
    /\ forall i j ri rj,
         (i < j)%nat -> rooms !! i = Some ri -> rooms !! j = Some rj ->
         let bi := Number_of_BigInt (total_amount (walletAddress ri) accounts) in
         let bj := Number_of_BigInt (total_amount (walletAddress rj) accounts) in
         balance ri = Number_toString bi /\ balance rj = Number_toString bj
         /\ number_le bj bi
         /\ (bi = bj ->
             exists p q, (p < q)%nat
               /\ appearance accounts !! p = Some (walletAddress ri)
               /\ appearance accounts !! q = Some (walletAddress rj)).
Proof.
  destruct (pipeline_shape accounts Hsize) as (m & _ & Hpos & Hnd & Hsum & Hkeys & _ & Hrooms).
  eexists. split; [apply Hrooms|].
  intros i j ri rj Hij Hi Hj bi bj.
  destruct (room_listing _ _ _ _ _ Hpos Hnd Hsum Hi) as (hi & Hhi & Hwi & Hbi & Hsi & _).
  destruct (room_listing _ _ _ _ _ Hpos Hnd Hsum Hj) as (hj & Hhj & Hwj & Hbj & Hsj & _).
  split; [exact Hsi|]. split; [exact Hsj|]. subst bi bj. rewrite <- Hbi, <- Hbj. split.
  - apply (top_sorted m i j hi hj Hij Hhi Hhj).
  - intros Heq. apply sublist_pair_inv. rewrite <- Hkeys, Hwi, Hwj.
    apply (top_ties_keep_map_order m i j hi hj Hij Hhi Hhj Heq).
Qed.

Lemma tie_accounts_sized : Forall (fun data => length data = 165%nat) tie_accounts.
Proof. apply (bool_decide_unpack _). vm_compute. exact I. Qed.

Lemma ranking_descending_ties_by_appearance_witness :
  exists rooms,
    compute_rooms ∅ tie_accounts = Ok rooms
    /\ (walletAddress <$> rooms) = [address W2; address W1]
    /\ appearance tie_accounts = [address W2; address W1]
    /\ (forall ri rj, rooms !! 0%nat = Some ri -> rooms !! 1%nat = Some rj ->
          balance ri = lit "5" /\ balance rj = lit "5"
          /\ exists p q, (p < q)%nat
               /\ appearance tie_accounts !! p = Some (walletAddress ri)
               /\ appearance tie_accounts !! q = Some (walletAddress rj)).
Proof.
  destruct (ranking_descending_ties_by_appearance ∅ tie_accounts tie_accounts_sized)
    as (rooms & Hrooms & Hord).
  exists rooms. split; [exact Hrooms|].
  pose proof Hrooms as E. vm_compute in E. injection E as <-.
  split; [vm_compute; reflexivity|]. split; [vm_compute; reflexivity|].
  intros ri rj Hi Hj.
  destruct (Hord 0%nat 1%nat ri rj ltac:(lia) Hi Hj) as (Hb0 & Hb1 & _ & Htie).
  vm_compute in Hi. injection Hi as <-. vm_compute in Hj. injection Hj as <-.
  split; [rewrite Hb0; vm_compute; reflexivity|].
  split; [rewrite Hb1; vm_compute; reflexivity|].
  apply Htie. vm_compute. reflexivity.
Defined.

(** C1, as the specification words it, fails: two owners of 5 tokens each
    are listed in the order of the response, the greater address first. *)
Lemma ranking_ties_not_in_wallet_order :
  exists rooms, compute_rooms ∅ tie_accounts = Ok rooms /\ ~ ties_in_wallet_order rooms.
Proof.
  destruct (compute_rooms ∅ tie_accounts) as [rooms|e] eqn:E;
    [|vm_compute in E; discriminate E].
  exists rooms. split; [reflexivity|].
  vm_compute in E. injection E as <-.
  intros Hclaim.
  specialize (Hclaim 0%nat 1%nat _ _ ltac:(lia) eq_refl eq_refl eq_refl).
  vm_compute in Hclaim. discriminate Hclaim.
Qed.

(** ** The exactness of the balance string *)

(** C2, as the code has it.  The amounts are summed exactly, as BigInt;
    each sum is converted to a double before the holders are sorted, and
    the balance string is the rendering of that double: the exact decimal
    numeral of the sum whenever the sum is below [2^53]. *)
Theorem balance_string_exact_below_2_53
    (d : registry) (accounts : list account_data)
    (Hsize : Forall (fun data => length data = 165%nat) accounts) :
  exists rooms,
    compute_rooms d accounts = Ok rooms
    /\ forall r, r ∈ rooms ->
         balance r
         = Number_toString (Number_of_BigInt (total_amount (walletAddress r) accounts))
         /\ (total_amount (walletAddress r) accounts < 2 ^ 53 ->
             balance r = decimal (total_amount (walletAddress r) accounts)).
Proof.
  destruct (pipeline_shape accounts Hsize) as (m & _ & Hpos & Hnd & Hsum & _ & _ & Hrooms).
  eexists. split; [apply Hrooms|].
  intros r Hr. apply list_elem_of_lookup in Hr as [i Hi].
  destruct (room_listing _ _ _ _ _ Hpos Hnd Hsum Hi) as (h & _ & _ & _ & Hs & Htot).
  split; [exact Hs|].
  intros Hsafe. rewrite Hs. apply Number_toString_safe. lia.
Qed.

Lemma balance_string_exact_below_2_53_witness :
  exists rooms,
    compute_rooms ∅ example_accounts = Ok rooms
    /\ forall r, r ∈ rooms ->
         balance r = decimal (total_amount (walletAddress r) example_accounts).
Proof.
  destruct (balance_string_exact_below_2_53 ∅ example_accounts) as (rooms & Hrooms & Hbal).
  { repeat constructor. }
  exists rooms. split; [exact Hrooms|].
  intros r Hr. apply (Hbal r Hr).
  rewrite spec_end_to_end in Hrooms. injection Hrooms as <-.
  apply list_elem_of_singleton in Hr. subst r. vm_compute. reflexivity.
Defined.

(** C2, as the specification words it, fails: the owner of [2^53 + 1]
    tokens is listed with 9007199254740992. *)
Lemma balance_string_rounded_above_2_53 :
  exists rooms, compute_rooms ∅ whale_accounts = Ok rooms
                /\ ~ balances_exact whale_accounts rooms.
Proof.
  destruct (compute_rooms ∅ whale_accounts) as [rooms|e] eqn:E;
    [|vm_compute in E; discriminate E].
  exists rooms. split; [reflexivity|].
  vm_compute in E. injection E as <-.
  intros Hclaim. specialize (Hclaim _ ltac:(left)).
  vm_compute in Hclaim. discriminate Hclaim.
Qed.

(** ** Concurrent requests *)

Lemma rooms_begin_miss (mintPubkey : PublicKey) (st : server)
    (query_mint : option jsstring) (now : Z) (mint : PublicKey) :
  requested_mint mintPubkey query_mint = Ok mint ->
  ~ cache_hit st (toBase58 mint) now ->
  rooms_begin mintPubkey st query_mint now = Awaiting (toBase58 mint) now.
Proof.
  intros Hmint Hmiss. unfold rooms_begin. rewrite Hmint.
  destruct (cache_fresh st (toBase58 mint) now) eqn:E; [|reflexivity].
  apply cache_fresh_spec in E. contradiction.
Qed.

Lemma run_event_miss
    (mintPubkey : PublicKey) (verify : list byte -> list byte -> list byte -> bool)
    (w : world) (id : nat) (query_mint : option jsstring) (now : Z) (mint : PublicKey) :
  requested_mint mintPubkey query_mint = Ok mint ->
  ~ cache_hit (srv w) (toBase58 mint) now ->
  run_event mintPubkey verify w (RoomsRequest id query_mint now)
  = {| srv := srv w;
       suspended := suspended w ++ [(id, (toBase58 mint, now))];
       rpc_calls := rpc_calls w ++ [toBase58 mint];
       sent := sent w |}.
Proof.
  intros Hmint Hno. simpl. rewrite (rooms_begin_miss _ _ _ _ mint Hmint Hno). reflexivity.
Qed.

(** C9, as the code has it.  Nothing is shared between requests in flight:
    every directory request that misses the cache calls
    [getProgramAccounts] itself.  When [k] requests for one mint arrive
    before any of their calls has settled, and the cache cannot serve
    them, [k] calls are made, the cache is left as it was, and each
    request waits for the result of its own call. *)
Theorem every_miss_fetches
    (mintPubkey : PublicKey) (verify : list byte -> list byte -> list byte -> bool)
    (mint : PublicKey) (reqs : list (nat * option jsstring * Z)) (w : world)
    (Hmiss : Forall (fun r => requested_mint mintPubkey r.1.2 = Ok mint
                              /\ ~ cache_hit (srv w) (toBase58 mint) r.2) reqs) :
  let w' := run_events mintPubkey verify w (arrival <$> reqs) in
  rpc_calls w' = rpc_calls w ++ repeat (toBase58 mint) (length reqs)
  /\ suspended w' = suspended w ++ ((fun r => (r.1.1, (toBase58 mint, r.2))) <$> reqs)
  /\ srv w' = srv w
  /\ sent w' = sent w.
Proof.
  revert w Hmiss. induction reqs as [|[[id q] now] reqs IH]; intros w Hmiss; cbv zeta.
  - simpl. rewrite !app_nil_r. repeat split; reflexivity.
  - apply Forall_cons in Hmiss as [[Hmint Hno] Hmiss]. simpl in Hmint, Hno.
    rewrite fmap_cons. unfold run_events. cbn [fold_left].
    change (arrival (id, q, now)) with (RoomsRequest id q now).
    rewrite (run_event_miss mintPubkey verify w id q now mint Hmint Hno).
    match goal with
    | |- context [fold_left _ _ ?w1] =>
        pose proof (IH w1 Hmiss) as IH'; cbv zeta in IH'; unfold run_events in IH';
        destruct IH' as (Hc & Hs & Hsrv & Hsent)
    end.
    rewrite Hc, Hs, Hsrv, Hsent. cbn [rpc_calls suspended srv sent length repeat fmap list_fmap].
    rewrite <- !app_assoc. repeat split; reflexivity.
Qed.

Lemma every_miss_fetches_witness :
  rpc_calls (run_events the_mint toy_verify initial_world
               [RoomsRequest 1 None 1000; RoomsRequest 2 None 1001; RoomsRequest 3 None 1002])
  = [toBase58 the_mint; toBase58 the_mint; toBase58 the_mint].
Proof.
  pose proof (every_miss_fetches the_mint toy_verify the_mint
                [(1%nat, None, 1000); (2%nat, None, 1001); (3%nat, None, 1002)]
                initial_world) as H.
  cbv zeta in H. apply H.
  repeat constructor; simpl; intros ([? [=]] & _).
Defined.

(** C9, as the specification words it, fails: two requests for the same
    mint that both miss the empty cache make two upstream calls, and each
    is answered from the result of its own call. *)
Lemma concurrent_misses_not_coalesced :
  let w := run_events the_mint toy_verify initial_world
             [RoomsRequest 1 None 1000; RoomsRequest 2 None 1000] in
  rpc_calls w = [toBase58 the_mint; toBase58 the_mint]
  /\ length (rpc_calls w) <> 1%nat
  /\ sent (run_events the_mint toy_verify w
             [AccountsSettled 1 (Ok example_accounts); AccountsSettled 2 (Ok tie_accounts)])
     = [(2%nat, json (RoomsBody
                        [{| walletAddress := address W2;
                            roomNumber := hashToRoom (address W2) MAX_ROOMS;
                            role := Landlord; balance := lit "5"; displayName := None |};
                         {| walletAddress := address W1;
                            roomNumber := hashToRoom (address W1) MAX_ROOMS;
                            role := Landlord; balance := lit "5"; displayName := None |}]
                        false));
        (1%nat, json (RoomsBody example_rooms false))].
Proof.
  cbv zeta. split; [|split].
  - reflexivity.
  - simpl. discriminate.
  - vm_compute. reflexivity.
Qed.

(** * Further properties of the handlers *)

(** ** Records that are too short, empty of tokens, or differ elsewhere *)

Lemma read_amount_short (bs : list byte) (count i : nat) (amount : Z) :
  (i <= length bs < i + count)%nat -> read_amount bs count i amount = Throw TypeError.
Proof.
  revert i amount. induction count as [|count IH]; intros i amount Hlen; [lia|].
  simpl. destruct (bs !! i) as [b|] eqn:Hb; [|reflexivity].
  apply lookup_lt_Some in Hb. apply IH. lia.
Qed.

Lemma aggregate_account_short (m : holders_map) (data : account_data) :
  (length data < 72)%nat -> aggregate_account m data = Throw TypeError.
Proof.
  intros Hlen. unfold aggregate_account.
  rewrite read_amount_short; [reflexivity|].
  unfold slice. rewrite length_take, length_drop. lia.
Qed.

Lemma aggregate_short (accounts : list account_data) (m : holders_map) :
  Exists (fun data => (length data < 72)%nat) accounts ->
  aggregate m accounts = Throw TypeError.
Proof.
  revert m. induction accounts as [|data accounts IH]; intros m Hex; [inversion Hex|].
  simpl. destruct (decide (length data < 72)%nat) as [Hs|Hl].
  - rewrite aggregate_account_short by exact Hs. reflexivity.
  - rewrite aggregate_account_spec by lia. simpl. apply IH.
    apply Exists_cons in Hex as [?|?]; [contradiction | assumption].
Qed.

Lemma aggregate_long (accounts : list account_data) (m : holders_map) :
  Forall (fun data => (72 <= length data)%nat) accounts ->
  exists m', aggregate m accounts = Ok m'.
Proof.
  revert m. induction accounts as [|data accounts IH]; intros m Hall; [simpl; eauto|].
  apply Forall_cons in Hall as [Hd Hall]. simpl.
  rewrite aggregate_account_spec by exact Hd. simpl. apply IH. exact Hall.
Qed.

(** A record shorter than 72 bytes anywhere in the upstream response makes
    the whole request fail: the answer is 500 "Failed to load rooms" and
    the stored snapshot stays; nothing is listed from the other records.
    When every record has at least 72 bytes a directory is returned and
    stored, whatever the records hold. *)
Theorem short_record_fails_request
    (st : server) (mintBase58 : jsstring) (now : Z) (accounts : list account_data) :
  (Exists (fun data => (length data < 72)%nat) accounts ->
   rooms_resume st mintBase58 now (Ok accounts) = (st, error 500 "Failed to load rooms"))
  /\ (Forall (fun data => (72 <= length data)%nat) accounts ->
      exists rooms,
        rooms_resume st mintBase58 now (Ok accounts)
        = ({| roomsCache := Some rooms; roomsCacheMint := Some mintBase58;
              roomsCacheUpdatedAt := now; db := db st |},
           json (RoomsBody rooms false))).
Proof.
  split; intros H; unfold rooms_resume, compute_rooms, top_holders, ranked_holders; simpl.
  - rewrite (aggregate_short accounts [] H). reflexivity.
  - destruct (aggregate_long accounts [] H) as [m ->]. simpl. eauto.
Qed.

Lemma short_record_fails_request_witness :
  rooms_resume warm_server (toBase58 the_mint) 50000
    (Ok (example_accounts ++ [take 71 (token_account mintX W2 9)]))
  = (warm_server, error 500 "Failed to load rooms")
  /\ exists rooms,
       rooms_resume warm_server (toBase58 the_mint) 50000
         (Ok (example_accounts ++ [take 72 (token_account mintX W2 9)]))
       = ({| roomsCache := Some rooms; roomsCacheMint := Some (toBase58 the_mint);
             roomsCacheUpdatedAt := 50000; db := db warm_server |},
          json (RoomsBody rooms false)).
Proof.
  split.
  - apply (proj1 (short_record_fails_request warm_server (toBase58 the_mint) 50000 _)).
    apply (bool_decide_unpack _). vm_compute. exact I.
  - apply (proj2 (short_record_fails_request warm_server (toBase58 the_mint) 50000 _)).
    apply (bool_decide_unpack _). vm_compute. exact I.
Defined.

Lemma aggregate_skips_zero (accounts : list account_data) (m : holders_map) :
  Forall (fun data => (72 <= length data)%nat) accounts ->
  aggregate m (filter (fun data => amount_of data <> 0) accounts) = aggregate m accounts.
Proof.
  revert m. induction accounts as [|data accounts IH]; intros m Hall; [reflexivity|].
  apply Forall_cons in Hall as [Hd Hall]. rewrite filter_cons.
  destruct (decide (amount_of data <> 0)) as [Hnz|Hz]; simpl.
  - rewrite aggregate_account_spec by exact Hd. simpl. apply IH. exact Hall.
  - rewrite aggregate_account_spec by exact Hd. simpl.
    destruct (Z.eqb_spec (amount_of data) 0) as [_|Hne]; [|contradiction].
    apply IH. exact Hall.
Qed.

(** Accounts holding no tokens play no part: on records of at least 72
    bytes, dropping every record whose amount is zero from the upstream
    response changes nothing in the directory, order included. *)
Theorem zero_amount_records_ignored (d : registry) (accounts : list account_data) :
  Forall (fun data => (72 <= length data)%nat) accounts ->
  compute_rooms d (filter (fun data => amount_of data <> 0) accounts)
  = compute_rooms d accounts.
Proof.
  intros Hall. unfold compute_rooms, top_holders, ranked_holders.
  rewrite aggregate_skips_zero by exact Hall. reflexivity.
Qed.

Lemma zero_amount_records_ignored_witness :
  compute_rooms ∅ [token_account mintX W1 500; token_account mintX W1 300]
  = compute_rooms ∅ example_accounts.
Proof.
  rewrite <- (zero_amount_records_ignored ∅ example_accounts).
  - apply (f_equal (compute_rooms ∅)). vm_compute. reflexivity.
  - apply (bool_decide_unpack _). vm_compute. exact I.
Defined.

Lemma slice_amount_of_fields (data : account_data) :
  slice 64 72 data = drop 32 (slice 32 72 data).
Proof.
  unfold slice. change (72 - 64)%nat with 8%nat. change (72 - 32)%nat with (32 + 8)%nat.
  rewrite <- take_drop_commute, drop_drop. reflexivity.
Qed.

Lemma slice_owner_of_fields (data : account_data) :
  slice 32 64 data = take 32 (slice 32 72 data).
Proof.
  unfold slice. rewrite take_take. reflexivity.
Qed.

Lemma aggregate_account_fields (m : holders_map) (data data' : account_data) :
  slice 32 72 data = slice 32 72 data' ->
  aggregate_account m data = aggregate_account m data'.
Proof.
  intros H. unfold aggregate_account.
  rewrite !slice_amount_of_fields, !slice_owner_of_fields, H. reflexivity.
Qed.

(** Only the owner and amount fields are read: two upstream responses
    whose records agree on bytes [32,72) give the same directory, or fail
    alike, whatever their other bytes hold, the mint at bytes [0,32)
    included; the handler relies on the filter of the node for it. *)
Theorem only_owner_and_amount_read
    (d : registry) (accounts accounts' : list account_data) :
  Forall2 (fun data data' => slice 32 72 data = slice 32 72 data') accounts accounts' ->
  compute_rooms d accounts = compute_rooms d accounts'.
Proof.
  intros H. unfold compute_rooms, top_holders, ranked_holders.
  assert (forall m, aggregate m accounts = aggregate m accounts') as ->; [|reflexivity].
  induction H as [|data data' accounts accounts' Hd _ IH]; intros m; [reflexivity|].
  simpl. rewrite (aggregate_account_fields m data data' Hd).
  destruct (aggregate_account m data'); simpl; [apply IH | reflexivity].
Qed.

Lemma only_owner_and_amount_read_witness :
  compute_rooms ∅ [token_account W2 W1 500; token_account W1 W2 0; token_account mintX W1 300]
  = compute_rooms ∅ example_accounts.
Proof.
  apply only_owner_and_amount_read.
  repeat constructor; vm_compute; reflexivity.
Defined.

(** ** What the truncation keeps *)

Lemma Map_get_Some_elem (m : holders_map) (w : jsstring) (v : Z) :
  Map_get m w = Some v -> (w, v) ∈ m.
Proof.
  induction m as [|[k0 v0] m IH]; simpl; [discriminate|].
  destruct (decide (k0 = w)) as [->|_].
  - intros [= ->]. left.
  - intros H. right. apply IH. exact H.
Qed.

(** The directory is the top of the ranking and nothing else: on records
    of 165 bytes it has as many rooms as there are wallets with a non-zero
    sum, up to 80, and a wallet with a non-zero sum that is not listed is
    left out of a full directory in which no room has a smaller balance
    (as listed: the double nearest to the sum). *)
Theorem directory_keeps_the_top
    (d : registry) (accounts : list account_data)
    (Hsize : Forall (fun data => length data = 165%nat) accounts) :
  exists rooms,
    compute_rooms d accounts = Ok rooms
    /\ length rooms = Nat.min 80 (length (appearance accounts))
    /\ forall w, 0 < total_amount w accounts ->
         (exists r, r ∈ rooms /\ walletAddress r = w)
         \/ (length rooms = 80%nat
             /\ forall r, r ∈ rooms ->
                  number_le (Number_of_BigInt (total_amount w accounts))
                            (Number_of_BigInt (total_amount (walletAddress r) accounts))).
Proof.
  destruct (pipeline_shape accounts Hsize) as (m & _ & Hpos & Hnd & Hsum & Hkeys & _ & Hrooms).
  set (sorted := Array_sort compareFn (to_holders m)) in *.
  assert (length sorted = length (appearance accounts)) as Hlen.
  { unfold sorted. rewrite (Array_sort_perm compareFn), <- Hkeys.
    unfold to_holders. rewrite length_map, length_fmap. reflexivity. }
  eexists. split; [apply Hrooms|]. split.
  - unfold withRooms. rewrite length_imap, length_take, Hlen. lia.
  - intros w Hw.
    assert (Map_get m w = Some (total_amount w accounts)) as Hget.
    { specialize (Hsum w). destruct (Map_get m w) as [v|]; simpl in Hsum; [congruence | lia]. }
    apply Map_get_Some_elem in Hget.
    assert ({| h_walletAddress := w;
               h_balance := Number_of_BigInt (total_amount w accounts) |} ∈ sorted) as Hin.
    { unfold sorted. rewrite (Array_sort_perm compareFn). unfold to_holders.
      apply list_elem_of_In, in_map_iff. exists (w, total_amount w accounts).
      split; [reflexivity | apply list_elem_of_In; exact Hget]. }
    rewrite <- (take_drop 80 sorted) in Hin. apply elem_of_app in Hin as [Hin|Hin].
    + left. apply list_elem_of_lookup in Hin as [i Hi].
      eexists. split.
      * apply list_elem_of_lookup. exists i. unfold withRooms.
        rewrite list_lookup_imap, Hi. reflexivity.
      * reflexivity.
    + right. split.
      * unfold withRooms. rewrite length_imap, length_take.
        destruct (decide (length sorted <= 80)%nat) as [Hle|]; [|lia].
        rewrite drop_ge in Hin by exact Hle. inversion Hin.
      * intros r Hr. apply list_elem_of_lookup in Hr as [i Hi].
        destruct (room_listing _ _ _ _ _ Hpos Hnd Hsum Hi) as (h & Hh & _ & Hb & _).
        rewrite <- Hb.
        pose proof (Array_sort_sorted compareFn outranks _ compareFn_after compareFn_before
                      (to_holders m)) as Hs.
        fold sorted in Hs. rewrite <- (take_drop 80 sorted) in Hs.
        apply (StronglySorted_app_1_elem_of outranks _ _ h _ Hs) in Hin;
          [exact Hin | apply list_elem_of_lookup; eauto].
Qed.

Lemma directory_keeps_the_top_witness :
  exists rooms,
    compute_rooms ∅ ninety_accounts = Ok rooms
    /\ length rooms = 80%nat
    /\ (forall r, r ∈ rooms ->
          number_le (Number_of_BigInt (total_amount (address (key_of 0)) ninety_accounts))
                    (Number_of_BigInt (total_amount (walletAddress r) ninety_accounts))).
Proof.
  destruct (directory_keeps_the_top ∅ ninety_accounts ninety_accounts_sized)
    as (rooms & Hrooms & Hlen & Htop).
  exists rooms. split; [exact Hrooms|].
  destruct (Htop (address (key_of 0))) as [(r & Hr & Hw)|[Hfull Hle]].
  - vm_compute. reflexivity.
  - exfalso. pose proof Hrooms as E. vm_compute in E. injection E as <-.
    apply (list_elem_of_fmap_2 walletAddress) in Hr. rewrite Hw in Hr.
    apply (bool_decide_pack _) in Hr. vm_compute in Hr. exact Hr.
  - split; [exact Hfull | exact Hle].
Defined.

(** ** The order of the upstream response *)

Lemma total_amount_perm (w : jsstring) (accounts accounts' : list account_data) :
  accounts ≡ₚ accounts' -> total_amount w accounts = total_amount w accounts'.
Proof.
  induction 1 as [|x l l' _ IH|x y l|l1 l2 l3 _ IH1 _ IH2].
  - reflexivity.
  - rewrite !total_amount_cons, IH. reflexivity.
  - rewrite !total_amount_cons. lia.
  - congruence.
Qed.

Lemma holders_of_positive_totals (accounts : list account_data) (m : holders_map) (w : jsstring) :
  positive_values m -> NoDup m.*1 ->
  (forall w, default 0 (Map_get m w) = total_amount w accounts) ->
  w ∈ m.*1 <-> 0 < total_amount w accounts.
Proof.
  intros Hpos Hnd Hsum. split.
  - intros Hin. apply list_elem_of_fmap in Hin as ([k v] & -> & Hin). simpl.
    apply (Map_get_elem _ _ _ Hnd) in Hin. rewrite <- Hsum, Hin. simpl. eapply Hpos, Hin.
  - intros Hw. specialize (Hsum w). destruct (Map_get m w) as [v|] eqn:E; simpl in Hsum; [|lia].
    apply Map_get_Some_elem in E. apply list_elem_of_fmap. exists (w, v). split; [reflexivity | exact E].
Qed.

(** What a wallet is listed with does not depend on the order of the
    upstream response: for two responses with the same records of 165
    bytes in different orders, the two directories have the same number of
    rooms, and a wallet that is in both has the same balance, room number
    and display name in both.  (Its rank, and so its role and whether it
    is listed at all, can differ where balances tie.) *)
Theorem listing_independent_of_response_order
    (d : registry) (accounts accounts' : list account_data)
    (Hperm : accounts ≡ₚ accounts')
    (Hsize : Forall (fun data => length data = 165%nat) accounts) :
  exists rooms rooms',
    compute_rooms d accounts = Ok rooms /\ compute_rooms d accounts' = Ok rooms'
    /\ length rooms = length rooms'
    /\ forall r r', r ∈ rooms -> r' ∈ rooms' -> walletAddress r = walletAddress r' ->
         balance r = balance r' /\ roomNumber r = roomNumber r'
         /\ displayName r = displayName r'.
Proof.
  assert (Forall (fun data => length data = 165%nat) accounts') as Hsize'
    by (rewrite <- Hperm; exact Hsize).
  destruct (pipeline_shape accounts Hsize) as (m & _ & Hpos & Hnd & Hsum & _ & _ & Hrooms).
  destruct (pipeline_shape accounts' Hsize')
    as (m' & _ & Hpos' & Hnd' & Hsum' & _ & _ & Hrooms').
  eexists. eexists. split; [apply Hrooms|]. split; [apply Hrooms'|]. split.
  - unfold withRooms. rewrite !length_imap, !length_take.
    rewrite !(Permutation_length (Array_sort_perm compareFn _)).
    unfold to_holders. rewrite !length_map.
    assert (m.*1 ≡ₚ m'.*1) as Hkeys.
    { apply NoDup_Permutation; [assumption..|]. intros w.
      rewrite (holders_of_positive_totals accounts m w Hpos Hnd Hsum).
      rewrite (holders_of_positive_totals accounts' m' w Hpos' Hnd' Hsum').
      rewrite (total_amount_perm w _ _ Hperm). reflexivity. }
    apply Permutation_length in Hkeys. rewrite !length_fmap in Hkeys. lia.
  - intros r r' Hr Hr' Hw.
    apply list_elem_of_lookup in Hr as [i Hi]. apply list_elem_of_lookup in Hr' as [j Hj].
    destruct (room_listing _ _ _ _ _ Hpos Hnd Hsum Hi) as (h & _ & Hwh & _ & Hb & _).
    destruct (room_listing _ _ _ _ _ Hpos' Hnd' Hsum' Hj) as (h' & _ & Hwh' & _ & Hb' & _).
    destruct (withRooms_lookup _ _ _ _ Hi) as (? & _ & Hw1 & Hn & _ & _ & Hd).
    destruct (withRooms_lookup _ _ _ _ Hj) as (? & _ & Hw1' & Hn' & _ & _ & Hd').
    rewrite Hb, Hb', Hn, Hn', Hd, Hd', <- Hw1, <- Hw1', Hw.
    rewrite (total_amount_perm _ _ _ Hperm). repeat split; reflexivity.
Qed.

Lemma listing_independent_of_response_order_witness :
  exists rooms rooms',
    compute_rooms ∅ tie_accounts = Ok rooms
    /\ compute_rooms ∅ (rev tie_accounts) = Ok rooms'
    /\ length rooms = length rooms'
    /\ (walletAddress <$> rooms) = [address W2; address W1]
    /\ (walletAddress <$> rooms') = [address W1; address W2].
Proof.
  destruct (listing_independent_of_response_order ∅ tie_accounts (rev tie_accounts)
              (Permutation_rev _) tie_accounts_sized)
    as (rooms & rooms' & Hrooms & Hrooms' & Hlen & _).
  exists rooms, rooms'. split; [exact Hrooms|]. split; [exact Hrooms'|].
  split; [exact Hlen|].
  pose proof Hrooms as E. vm_compute in E. injection E as <-.
  pose proof Hrooms' as E'. vm_compute in E'. injection E' as <-.
  split; vm_compute; reflexivity.
Defined.

(** ** Failures of a directory request *)

Lemma startsWith_spec (s p : jsstring) :
  startsWith s p = true <-> exists rest, s = p ++ rest.
Proof.
  revert s. induction p as [|c p IH]; intros s; simpl.
  - split; [intros _; exists s; reflexivity | intros _; destruct s; reflexivity].
  - destruct s as [|d s].
    + split; [discriminate | intros [rest [=]]].
    + cbn [startsWith]. rewrite andb_true_iff, Z.eqb_eq, IH. split.
      * intros [-> [rest ->]]. exists rest. reflexivity.
      * intros [rest [= -> ->]]. split; [reflexivity | exists rest; reflexivity].
Qed.

Lemma includes_spec (s p : jsstring) :
  includes s p = true <-> exists pre post, s = pre ++ p ++ post.
Proof.
  induction s as [|c s IH]; cbn [includes]; rewrite orb_true_iff, startsWith_spec.
  - split.
    + intros [[rest H]|[=]]. exists [], rest. exact H.
    + intros (pre & post & H). left. destruct pre; [|discriminate].
      exists post. exact H.
  - rewrite IH. split.
    + intros [[rest H]|(pre & post & H)].
      * exists [], rest. exact H.
      * exists (c :: pre), post. rewrite H. reflexivity.
    + intros ([|c' pre] & post & H).
      * left. exists post. exact H.
      * right. injection H as -> ->. exists pre, post. reflexivity.
Qed.

(** A failure of the upstream call is answered 503 exactly when its
    message contains "429" or "Too many requests" somewhere, and 500
    otherwise; either way the stored snapshot stays as it was, and is not
    served in place of the failed refresh. *)
Theorem upstream_failure_classified
    (st : server) (mintBase58 : jsstring) (now : Z) (message : jsstring) :
  let out := rooms_resume st mintBase58 now (Throw (UpstreamError message)) in
  let limited :=
    (exists pre post, message = pre ++ lit "429" ++ post)
    \/ (exists pre post, message = pre ++ lit "Too many requests" ++ post) in
  out.1 = st
  /\ (limited -> out.2 = error 503 "Upstream RPC rate-limited. Try again in a minute.")
  /\ (~ limited -> out.2 = error 500 "Failed to load rooms").
Proof.
  intros out limited. subst out limited. unfold rooms_resume, rooms_catch.
  cbn -[lit includes].
  rewrite <- !includes_spec, <- orb_true_iff.
  destruct (includes message (lit "429") || includes message (lit "Too many requests")).
  - split; [reflexivity|]. split; [reflexivity | intros H; exfalso; apply H; reflexivity].
  - split; [reflexivity|]. split; [discriminate | reflexivity].
Qed.

Lemma upstream_failure_classified_witness :
  rooms_resume warm_server (toBase58 the_mint) 50000
    (Throw (UpstreamError (lit "429 Too many requests")))
  = (warm_server, error 503 "Upstream RPC rate-limited. Try again in a minute.")
  /\ rooms_resume warm_server (toBase58 the_mint) 50000
       (Throw (UpstreamError (lit "fetch failed")))
     = (warm_server, error 500 "Failed to load rooms").
Proof.
  split.
  - pose proof (upstream_failure_classified warm_server (toBase58 the_mint) 50000
                  (lit "429 Too many requests")) as H.
    cbv zeta in H. destruct H as (H1 & H2 & _).
    rewrite (surjective_pairing (rooms_resume _ _ _ _)), H1, H2; [reflexivity|].
    left. exists [], (lit " Too many requests"). reflexivity.
  - pose proof (upstream_failure_classified warm_server (toBase58 the_mint) 50000
                  (lit "fetch failed")) as H.
    cbv zeta in H. destruct H as (H1 & _ & H3).
    rewrite (surjective_pairing (rooms_resume _ _ _ _)), H1, H3; [reflexivity|].
    rewrite <- !includes_spec. vm_compute. intros [H|H]; discriminate H.
Defined.

Lemma count_leading_take {A} (p : A -> bool) (l : list A) :
  Forall (fun x => p x = true) (take (count_leading p l) l).
Proof.
  induction l as [|x l IH]; simpl; [constructor|].
  destruct (p x) eqn:E; simpl; [constructor; assumption | constructor].
Qed.

Lemma bs58_decode_foreign (source : jsstring) (c : Z) :
  c ∈ source -> index_of c ALPHABET = None -> bs58_decode source = Throw NonBase58Character.
Proof.
  intros Hin Hc. unfold bs58_decode.
  set (zeroes := count_leading (Z.eqb 49) source).
  rewrite <- (take_drop zeroes source) in Hin. apply elem_of_app in Hin as [Hin|Hin].
  - pose proof (count_leading_take (Z.eqb 49) source) as Hl. fold zeroes in Hl.
    rewrite Forall_forall in Hl. apply Hl, Z.eqb_eq in Hin. subst c. discriminate Hc.
  - rewrite (mapM_None_2 (fun c => index_of c ALPHABET) (drop zeroes source)); [reflexivity|].
    apply Exists_exists. exists c. split; assumption.
Qed.

Lemma PublicKey_of_string_throws (value : jsstring) (e : exn) :
  PublicKey_of_string value = Throw e -> e = NonBase58Character \/ e = InvalidPublicKeyInput.
Proof.
  unfold PublicKey_of_string, bs58_decode.
  destruct (mapM _ _); simpl; [|intros [= <-]; left; reflexivity].
  destruct (negb _); [intros [= <-]; right; reflexivity|].
  unfold PublicKey_of_bytes. destruct (_ <=? _); [intros [= <-]; right; reflexivity | discriminate].
Qed.

(** A [mint] parameter that does not parse as a public key is answered 500
    "Failed to load rooms", not 400: the handler answers at once, without
    calling upstream and without touching the state.  A parameter holding
    any character outside the Base58 alphabet is such a parameter. *)
Theorem bad_mint_answered_500
    (mintPubkey : PublicKey) (verify : list byte -> list byte -> list byte -> bool)
    (w : world) (id : nat) (c : Z) (q : jsstring) (now : Z) :
  (forall e, PublicKey_of_string (c :: q) = Throw e ->
     run_event mintPubkey verify w (RoomsRequest id (Some (c :: q)) now)
     = {| srv := srv w; suspended := suspended w; rpc_calls := rpc_calls w;
          sent := (id, error 500 "Failed to load rooms") :: sent w |})
  /\ (forall c', c' ∈ c :: q -> index_of c' ALPHABET = None ->
        PublicKey_of_string (c :: q) = Throw NonBase58Character).
Proof.
  split.
  - intros e He. simpl. unfold rooms_begin, requested_mint. rewrite He.
    destruct (PublicKey_of_string_throws _ _ He) as [-> | ->]; reflexivity.
  - intros c' Hin Hc. unfold PublicKey_of_string.
    rewrite (bs58_decode_foreign _ c' Hin Hc). reflexivity.
Qed.

Lemma bad_mint_answered_500_witness :
  run_event the_mint toy_verify initial_world (RoomsRequest 1 (Some (lit "0OIl")) 1000)
  = {| srv := initial_server; suspended := []; rpc_calls := [];
       sent := [(1%nat, error 500 "Failed to load rooms")] |}.
Proof.
  destruct (bad_mint_answered_500 the_mint toy_verify initial_world 1 48 (lit "OIl") 1000)
    as [H1 H2].
  apply (H1 NonBase58Character). apply (H2 48); [left | reflexivity].
Defined.

(** ** The cache over several requests *)

Lemma rooms_catch_is_error (e : exn) : exists s msg, rooms_catch e = error s msg.
Proof. unfold rooms_catch. destruct (_ || _); eauto. Qed.

(** Once a request has been answered with a fresh directory, every request
    for the same [mint] parameter made less than 30000 ms after it (by the
    clock value each request reads) is answered with the same rooms,
    flagged [cached: true], and leaves the state alone, whatever the
    upstream node would answer by then. *)
Theorem repeat_within_ttl_served_from_cache
    (mintPubkey : PublicKey) (rpc rpc' : jsstring -> result (list account_data))
    (st st1 : server) (query_mint : option jsstring) (now now' : Z) (rooms : list room) :
  get_rooms mintPubkey rpc st query_mint now = (st1, json (RoomsBody rooms false)) ->
  now' - now < 30000 ->
  get_rooms mintPubkey rpc' st1 query_mint now' = (st1, json (RoomsBody rooms true)).
Proof.
  unfold get_rooms, rooms_begin. intros H Httl.
  destruct (requested_mint mintPubkey query_mint) as [mint|e].
  2:{ destruct (rooms_catch_is_error e) as (s & msg & E). rewrite E in H. discriminate H. }
  destruct (cache_fresh st (toBase58 mint) now); [discriminate H|].
  unfold rooms_resume in H.
  destruct (accounts ← rpc (toBase58 mint); compute_rooms (db st) accounts) as [rooms0|e].
  2:{ destruct (rooms_catch_is_error e) as (s & msg & E). rewrite E in H. discriminate H. }
  injection H as <- <-.
  unfold cache_fresh. simpl.
  rewrite bool_decide_eq_true_2 by reflexivity.
  destruct (Z.ltb_spec (now' - now) CACHE_TTL_MS) as [_|Hge]; [reflexivity|].
  unfold CACHE_TTL_MS in Hge. lia.
Qed.

Lemma repeat_within_ttl_served_from_cache_witness :
  get_rooms the_mint failing_rpc warm_server None 30999
  = (warm_server, json (RoomsBody example_rooms true)).
Proof.
  apply (repeat_within_ttl_served_from_cache the_mint example_rpc failing_rpc
           initial_server warm_server None 1000 30999 example_rooms).
  - vm_compute. reflexivity.
  - lia.
Defined.

Lemma post_keeps_cache (verify : list byte -> list byte -> list byte -> bool)
    (st : server) (req : name_request) (now : Z) :
  roomsCache (post_display_name verify st req now).1 = roomsCache st
  /\ roomsCacheMint (post_display_name verify st req now).1 = roomsCacheMint st
  /\ roomsCacheUpdatedAt (post_display_name verify st req now).1 = roomsCacheUpdatedAt st.
Proof.
  unfold post_display_name.
  repeat match goal with
         | |- context [if ?b then _ else _] => destruct b
         | |- context [match ?r with Ok _ => _ | Throw _ => _ end] => destruct r
         end; simpl; repeat split; reflexivity.
Qed.

Lemma post_payload_not_rooms (verify : list byte -> list byte -> list byte -> bool)
    (st : server) (req : name_request) (now : Z) (rooms : list room) (cached : bool) :
  (post_display_name verify st req now).2 <> json (RoomsBody rooms cached).
Proof.
  unfold post_display_name.
  repeat match goal with
         | |- context [if ?b then _ else _] => destruct b
         | |- context [match ?r with Ok _ => _ | Throw _ => _ end] => destruct r
         end; simpl; discriminate.
Qed.

Lemma computed_before_mono (w w' : world) (rooms : list room) :
  sent w ⊆ sent w' -> computed_before w rooms -> computed_before w' rooms.
Proof. intros Hsub [id Hid]. exists id. apply Hsub. exact Hid. Qed.

Lemma run_event_serves_computed
    (mintPubkey : PublicKey) (verify : list byte -> list byte -> list byte -> bool)
    (w : world) (ev : event) :
  cache_serves_computed w -> cache_serves_computed (run_event mintPubkey verify w ev).
Proof.
  intros [Hcache Hsent]. destruct ev as [id q now | id fetched | id req now]; simpl.
  - unfold rooms_begin. destruct (requested_mint mintPubkey q) as [mint|e].
    + destruct (cache_fresh (srv w) (toBase58 mint) now) eqn:Hf; [|split; assumption].
      assert (roomsCache (srv w) = Some (default [] (roomsCache (srv w)))) as Hc.
      { unfold cache_fresh in Hf. destruct (roomsCache (srv w)); [reflexivity | discriminate]. }
      split; simpl.
      * intros rooms Hr. eapply computed_before_mono; [|apply Hcache; exact Hr].
        simpl. apply list_subseteq_cons; reflexivity.
      * intros id' rooms Hin. apply elem_of_cons in Hin as [[= -> ->]|Hin].
        -- eapply computed_before_mono; [|apply Hcache; exact Hc].
           simpl. apply list_subseteq_cons; reflexivity.
        -- eapply computed_before_mono; [|eapply Hsent; exact Hin].
           simpl. apply list_subseteq_cons; reflexivity.
    + destruct (rooms_catch_is_error e) as (s & msg & E). rewrite E. split; simpl.
      * intros rooms Hr. eapply computed_before_mono; [|apply Hcache; exact Hr].
        simpl. apply list_subseteq_cons; reflexivity.
      * intros id' rooms Hin. apply elem_of_cons in Hin as [[=]|Hin].
        eapply computed_before_mono; [|eapply Hsent; exact Hin].
        simpl. apply list_subseteq_cons; reflexivity.
  - destruct (find_suspended id (suspended w)) as [[m now]|]; [|split; assumption].
    unfold rooms_resume.
    destruct (accounts ← fetched; compute_rooms (db (srv w)) accounts) as [rooms0|e].
    + split; simpl.
      * intros rooms [= <-]. exists id. left.
      * intros id' rooms Hin. apply elem_of_cons in Hin as [[=]|Hin].
        eapply computed_before_mono; [|eapply Hsent; exact Hin].
        simpl. apply list_subseteq_cons; reflexivity.
    + destruct (rooms_catch_is_error e) as (s & msg & E). rewrite E. split; simpl.
      * intros rooms Hr. eapply computed_before_mono; [|apply Hcache; exact Hr].
        simpl. apply list_subseteq_cons; reflexivity.
      * intros id' rooms Hin. apply elem_of_cons in Hin as [[=]|Hin].
        eapply computed_before_mono; [|eapply Hsent; exact Hin].
        simpl. apply list_subseteq_cons; reflexivity.
  - pose proof (post_keeps_cache verify (srv w) req now) as (Hk & _).
    pose proof (post_payload_not_rooms verify (srv w) req now) as Hp.
    destruct (post_display_name verify (srv w) req now) as [st res]. simpl in Hk, Hp.
    split; simpl.
    + intros rooms Hr. rewrite Hk in Hr.
      eapply computed_before_mono; [|apply Hcache; exact Hr]. simpl. apply list_subseteq_cons; reflexivity.
    + intros id' rooms Hin. apply elem_of_cons in Hin as [[= -> E]|Hin].
      * exfalso. eapply Hp. symmetry. exact E.
      * eapply computed_before_mono; [|eapply Hsent; exact Hin].
        simpl. apply list_subseteq_cons; reflexivity.
Qed.

(** Through any sequence of requests, name updates and settled upstream
    calls, interleaved in any way, a directory flagged [cached: true] is
    always one that an earlier response carried flagged [cached: false],
    rooms, balances and names as they were then; and so is the stored
    snapshot. *)
Theorem cache_only_serves_computed_directories
    (mintPubkey : PublicKey) (verify : list byte -> list byte -> list byte -> bool)
    (evs : list event) :
  cache_serves_computed (run_events mintPubkey verify initial_world evs).
Proof.
  unfold run_events.
  assert (cache_serves_computed initial_world) as H0.
  { split; [intros rooms [=] | intros id rooms Hin; inversion Hin]. }
  revert H0. generalize initial_world. induction evs as [|ev evs IH]; intros w Hw; simpl.
  - exact Hw.
  - apply IH. apply run_event_serves_computed. exact Hw.
Qed.

(** ** Accepted name updates *)

Lemma post_accepted_inv (verify : list byte -> list byte -> list byte -> bool)
    (st : server) (req : name_request) (now : Z) :
  status (post_display_name verify st req now).2 = 200 ->
  exists w n m sg,
    req = {| req_walletAddress := Some w; req_displayName := Some n;
             req_message := Some m; req_signature := Some sg |}
    /\ w <> [] /\ n <> [] /\ m <> []
    /\ startsWith m NAME_UPDATE_PREFIX = true
    /\ (length n <= 24)%nat
    /\ check_signature verify w m sg = Ok true
    /\ post_display_name verify st req now
       = ({| roomsCache := roomsCache st;
             roomsCacheMint := roomsCacheMint st;
             roomsCacheUpdatedAt := roomsCacheUpdatedAt st;
             db := upsertName (db st) w n now |},
          json (NameBody true w n)).
Proof.
  destruct req as [[[|cw w]|] [[|cn n]|] [[|cm m]|] [sg|]]; try (simpl; discriminate).
  rewrite (post_present verify st now (cw :: w) (cn :: n) (cm :: m) sg) by discriminate.
  destruct (startsWith (cm :: m) NAME_UPDATE_PREFIX) eqn:Hp; cbn [negb]; [|simpl; discriminate].
  destruct (Nat.ltb_spec 24 (length (cn :: n))) as [|Hlen]; [simpl; discriminate|].
  destruct (check_signature verify (cw :: w) (cm :: m) sg) as [[]|] eqn:Hs;
    try (simpl; discriminate).
  intros _. exists (cw :: w), (cn :: n), (cm :: m), sg.
  repeat split; try discriminate; try assumption.
Qed.

(** The registry is written only for a verified signature: a name update
    answered 200 carries a message that begins with
    "RENTFREE_NAME_UPDATE_V1:", a name of 1 to 24 code units, a wallet
    address that parses as a public key and a signature of exactly 64
    numbers, and the Ed25519 check accepted the signature bytes (each
    number taken modulo 256) for the UTF-8 bytes of the message under
    that key; the row written is that wallet's, with that name and the
    time of the request. *)
Theorem accepted_update_was_verified
    (verify : list byte -> list byte -> list byte -> bool)
    (st : server) (req : name_request) (now : Z) :
  status (post_display_name verify st req now).2 = 200 ->
  exists w n rest sg pubkey,
    req = {| req_walletAddress := Some w; req_displayName := Some n;
             req_message := Some (NAME_UPDATE_PREFIX ++ rest); req_signature := Some sg |}
    /\ (1 <= length n <= 24)%nat
    /\ length sg = 64%nat
    /\ PublicKey_of_string w = Ok pubkey
    /\ verify (TextEncoder_encode (NAME_UPDATE_PREFIX ++ rest)) (map to_uint8 sg)
         (toBytes pubkey) = true
    /\ db (post_display_name verify st req now).1
       = <[w := {| name := n; updated_at := now |}]> (db st).
Proof.
  intros H. destruct (post_accepted_inv verify st req now H)
    as (w & n & m & sg & -> & Hw & Hn & Hm & Hp & Hlen & Hs & ->).
  apply startsWith_spec in Hp as [rest ->].
  unfold check_signature in Hs.
  destruct (PublicKey_of_string w) as [pubkey|] eqn:Hpk; simpl in Hs; [|discriminate].
  unfold nacl_sign_detached_verify in Hs. rewrite length_map in Hs.
  destruct (Nat.eqb_spec (length sg) 64) as [Hsg|]; simpl in Hs; [|discriminate].
  injection Hs as Hs.
  exists w, n, rest, sg, pubkey. repeat split; try assumption.
  destruct n; [congruence | simpl; lia].
Qed.

Lemma accepted_update_was_verified_witness :
  exists w n rest sg pubkey,
    alice_request 1
    = {| req_walletAddress := Some w; req_displayName := Some n;
         req_message := Some (NAME_UPDATE_PREFIX ++ rest); req_signature := Some sg |}
    /\ length sg = 64%nat
    /\ PublicKey_of_string w = Ok pubkey
    /\ toy_verify (TextEncoder_encode (NAME_UPDATE_PREFIX ++ rest)) (map to_uint8 sg)
         (toBytes pubkey) = true.
Proof.
  destruct (accepted_update_was_verified toy_verify initial_server (alice_request 1) 5)
    as (w & n & rest & sg & pubkey & E & _ & Hl & Hpk & Hv & _).
  - vm_compute. reflexivity.
  - exists w, n, rest, sg, pubkey. repeat split; assumption.
Defined.

(** The signature does not cover the display name: when a name update is
    accepted, the same wallet address, message and signature are accepted
    again, at any time, with any other name of 1 to 24 code units, and
    that name is written. *)
Theorem signature_not_bound_to_name
    (verify : list byte -> list byte -> list byte -> bool)
    (st st' : server) (req : name_request) (now now' : Z) (n' : jsstring) :
  status (post_display_name verify st req now).2 = 200 ->
  (1 <= length n' <= 24)%nat ->
  exists w,
    req_walletAddress req = Some w
    /\ post_display_name verify st'
         {| req_walletAddress := req_walletAddress req; req_displayName := Some n';
            req_message := req_message req; req_signature := req_signature req |} now'
       = ({| roomsCache := roomsCache st';
             roomsCacheMint := roomsCacheMint st';
             roomsCacheUpdatedAt := roomsCacheUpdatedAt st';
             db := <[w := {| name := n'; updated_at := now' |}]> (db st') |},
          json (NameBody true w n')).
Proof.
  intros H Hn'. destruct (post_accepted_inv verify st req now H)
    as (w & n & m & sg & -> & Hw & Hn & Hm & Hp & Hlen & Hs & _).
  exists w. split; [reflexivity|]. simpl.
  rewrite (post_present verify st' now' w n' m sg); [|assumption| |assumption].
  2:{ intros ->. simpl in Hn'. lia. }
  rewrite Hp, Hs. cbn [negb].
  destruct (Nat.ltb_spec 24 (length n')); [lia | reflexivity].
Qed.

Lemma signature_not_bound_to_name_witness :
  exists w,
    Some (address W1) = Some w
    /\ db (post_display_name toy_verify warm_server
             {| req_walletAddress := Some (address W1); req_displayName := Some (lit "bob");
                req_message := Some (lit "RENTFREE_NAME_UPDATE_V1:alice");
                req_signature := Some (1 :: repeat 0 63) |} 77).1
       = <[w := {| name := lit "bob"; updated_at := 77 |}]> ∅.
Proof.
  destruct (signature_not_bound_to_name toy_verify initial_server warm_server
              (alice_request 1) 5 77 (lit "bob")) as (w & Hw & Hpost).
  - vm_compute. reflexivity.
  - simpl. lia.
  - exists w. split; [exact Hw|]. exact (f_equal (fun out => db out.1) Hpost).
Defined.

(** A name update writes at most the row of its own wallet address: the
    row of every other wallet, and the cached snapshot with its mint and
    time, are the same after the request as before, accepted or not. *)
Theorem update_touches_one_row
    (verify : list byte -> list byte -> list byte -> bool)
    (st : server) (req : name_request) (now : Z) (w' : jsstring) :
  req_walletAddress req <> Some w' ->
  db (post_display_name verify st req now).1 !! w' = db st !! w'
  /\ roomsCache (post_display_name verify st req now).1 = roomsCache st
  /\ roomsCacheMint (post_display_name verify st req now).1 = roomsCacheMint st
  /\ roomsCacheUpdatedAt (post_display_name verify st req now).1 = roomsCacheUpdatedAt st.
Proof.
  intros Hw'. split; [|apply post_keeps_cache].
  destruct (Z.eq_dec (status (post_display_name verify st req now).2) 200) as [H|H].
  - destruct (post_accepted_inv verify st req now H)
      as (w & n & m & sg & -> & _ & _ & _ & _ & _ & _ & ->).
    simpl. unfold upsertName. apply lookup_insert_ne. simpl in Hw'. congruence.
  - rewrite (post_error_keeps_state verify st req now H). reflexivity.
Qed.

Lemma update_touches_one_row_witness :
  db (post_display_name toy_verify
        {| roomsCache := None; roomsCacheMint := None; roomsCacheUpdatedAt := 0;
           db := {[ address W2 := {| name := lit "carol"; updated_at := 1 |} ]} |}
        (alice_request 1) 5).1 !! address W2
  = Some {| name := lit "carol"; updated_at := 1 |}.
Proof.
  destruct (update_touches_one_row toy_verify
              {| roomsCache := None; roomsCacheMint := None; roomsCacheUpdatedAt := 0;
                 db := {[ address W2 := {| name := lit "carol"; updated_at := 1 |} ]} |}
              (alice_request 1) 5 (address W2)) as [H _].
  - vm_compute. discriminate.
  - rewrite H. simpl. apply lookup_singleton_eq.
Defined.

(** ** Names in the directory *)

Lemma listing_withRooms (d d' : registry) (top : list holder) :
  listing <$> withRooms d top = listing <$> withRooms d' top.
Proof.
  apply list_eq. intros i. rewrite !list_lookup_fmap. unfold withRooms.
  rewrite !list_lookup_imap. destruct (top !! i); reflexivity.
Qed.

(** After an accepted name update, a directory computed afresh lists the
    new name with the room of that wallet, and is otherwise what it would
    have been without the update: the same wallets in the same order with
    the same room numbers, roles and balances, and the names of the other
    wallets as the registry had them. *)
Theorem accepted_name_listed_in_fresh_directory
    (verify : list byte -> list byte -> list byte -> bool)
    (st : server) (req : name_request) (now : Z)
    (accounts : list account_data) (rooms0 rooms : list room) :
  status (post_display_name verify st req now).2 = 200 ->
  compute_rooms (db st) accounts = Ok rooms0 ->
  compute_rooms (db (post_display_name verify st req now).1) accounts = Ok rooms ->
  listing <$> rooms = listing <$> rooms0
  /\ forall r, r ∈ rooms ->
       (req_walletAddress req = Some (walletAddress r) ->
        displayName r = req_displayName req)
       /\ (req_walletAddress req <> Some (walletAddress r) ->
           displayName r = name <$> db st !! walletAddress r).
Proof.
  intros H H0 H1.
  destruct (post_accepted_inv verify st req now H)
    as (w & n & m & sg & -> & _ & _ & _ & _ & _ & _ & E).
  rewrite E in H1. simpl in H1.
  destruct (compute_rooms_inv _ _ _ H0) as (top & Htop & ->).
  destruct (compute_rooms_inv _ _ _ H1) as (top' & Htop' & ->).
  rewrite Htop in Htop'. injection Htop' as <-.
  split; [apply listing_withRooms|].
  intros r Hr. apply list_elem_of_lookup in Hr as [i Hi].
  destruct (withRooms_lookup _ _ _ _ Hi) as (h & _ & Hw & _ & _ & _ & Hd).
  rewrite Hd, <- Hw. unfold upsertName. simpl. split.
  - intros [= ->]. rewrite lookup_insert_eq. reflexivity.
  - intros Hne. rewrite lookup_insert_ne by congruence. reflexivity.
Qed.

Lemma accepted_name_listed_in_fresh_directory_witness :
  exists rooms,
    compute_rooms (db (post_display_name toy_verify initial_server (alice_request 1) 5).1)
      example_accounts = Ok rooms
    /\ (listing <$> rooms) = (listing <$> example_rooms)
    /\ (displayName <$> rooms) = [Some (lit "alice")].
Proof.
  destruct (compute_rooms
              (db (post_display_name toy_verify initial_server (alice_request 1) 5).1)
              example_accounts) as [rooms|e] eqn:E; [|vm_compute in E; discriminate E].
  exists rooms. split; [reflexivity|].
  destruct (accepted_name_listed_in_fresh_directory toy_verify initial_server
              (alice_request 1) 5 example_accounts example_rooms rooms) as [Hl Hn].
  - vm_compute. reflexivity.
  - exact spec_end_to_end.
  - exact E.
  - split; [exact Hl|]. vm_compute in E. injection E as <-. vm_compute. reflexivity.
Defined.

(** An accepted name update does not show while the cache is fresh: a
    directory request that the cache could serve before a name update is
    served the same stored rooms, old names included, after it. *)
Theorem name_update_hidden_while_cached
    (mintPubkey : PublicKey) (verify : list byte -> list byte -> list byte -> bool)
    (rpc : jsstring -> result (list account_data))
    (st : server) (req : name_request) (t : Z)
    (query_mint : option jsstring) (now : Z) (mint : PublicKey) :
  requested_mint mintPubkey query_mint = Ok mint ->
  cache_hit st (toBase58 mint) now ->
  exists rooms,
    roomsCache st = Some rooms
    /\ get_rooms mintPubkey rpc (post_display_name verify st req t).1 query_mint now
       = ((post_display_name verify st req t).1, json (RoomsBody rooms true)).
Proof.
  intros Hmint Hhit.
  pose proof (post_keeps_cache verify st req t) as (Hc & Hm & Hu).
  assert (cache_hit (post_display_name verify st req t).1 (toBase58 mint) now) as Hhit'.
  { unfold cache_hit. rewrite Hc, Hm, Hu. exact Hhit. }
  destruct Hhit as ([rooms Hrooms] & _).
  exists rooms. split; [exact Hrooms|].
  unfold get_rooms, rooms_begin. rewrite Hmint.
  apply cache_fresh_spec in Hhit'. rewrite Hhit', Hc, Hrooms. reflexivity.
Qed.

Lemma name_update_hidden_while_cached_witness :
  exists rooms,
    roomsCache warm_server = Some rooms
    /\ (displayName <$> rooms) = [None]
    /\ get_rooms the_mint example_rpc
         (post_display_name toy_verify warm_server (alice_request 1) 2000).1 None 3000
       = ((post_display_name toy_verify warm_server (alice_request 1) 2000).1,
          json (RoomsBody rooms true))
    /\ db (post_display_name toy_verify warm_server (alice_request 1) 2000).1 !! address W1
       = Some {| name := lit "alice"; updated_at := 2000 |}.
Proof.
  destruct (name_update_hidden_while_cached the_mint toy_verify example_rpc warm_server
              (alice_request 1) 2000 None 3000 the_mint eq_refl) as (rooms & Hr & Hg).
  - split; [eexists; reflexivity|]. split; [reflexivity | simpl; lia].
  - exists rooms. split; [exact Hr|]. split.
    + injection Hr as <-. reflexivity.
    + split; [exact Hg|]. vm_compute. reflexivity.
Defined.

(** ** The hash behind the room number *)

Lemma hash_loop_mod (wallet : jsstring) (h0 : Z) :
  fold_left (fun hash c => u32 (hash * 31 + c)) wallet (u32 h0)
  = u32 (fold_left (fun acc d => acc * 31 + d) wallet h0).
Proof.
  revert h0. induction wallet as [|c wallet IH]; intros h0; simpl; [reflexivity|].
  rewrite <- IH. f_equal. unfold u32.
  rewrite Zplus_mod, Zmult_mod_idemp_l, <- Zplus_mod. reflexivity.
Qed.

(** The room number is the polynomial string hash with multiplier 31,
    reduced to 32 bits once and then to the range of rooms: wrapping the
    hash at every character, as the loop does, gives the same number as
    wrapping the exact sum [c0 * 31^(n-1) + ... + c(n-1)] at the end. *)
Theorem hashToRoom_polynomial (wallet : jsstring) (maxRooms : Z) :
  hashToRoom wallet maxRooms = Z.rem (of_digits 31 wallet mod 2 ^ 32) maxRooms + 1.
Proof.
  unfold hashToRoom, of_digits. change 0 with (u32 0) at 1.
  rewrite hash_loop_mod. reflexivity.
Qed.

(** ** A snapshot and the time of its request *)

Lemma find_suspended_snoc (id id' : nat) (k k' : jsstring * Z)
    (l : list (nat * (jsstring * Z))) :
  find_suspended id l = Some k -> find_suspended id (l ++ [(id', k')]) = Some k.
Proof.
  induction l as [|[i k0] l IH]; simpl; [discriminate|].
  destruct (i =? id)%nat; [trivial | exact IH].
Qed.

Lemma find_suspended_remove (id id' : nat) (l : list (nat * (jsstring * Z))) :
  id' <> id -> find_suspended id (remove_suspended id' l) = find_suspended id l.
Proof.
  intros Hne. induction l as [|[i k0] l IH]; simpl; [reflexivity|].
  destruct (Nat.eqb_spec i id') as [->|Hi].
  - destruct (Nat.eqb_spec id' id); [contradiction | reflexivity].
  - simpl. rewrite IH. reflexivity.
Qed.

Lemma run_event_keeps_suspended
    (mintPubkey : PublicKey) (verify : list byte -> list byte -> list byte -> bool)
    (w : world) (ev : event) (id : nat) (k : jsstring * Z) :
  ~ settles id ev ->
  find_suspended id (suspended w) = Some k ->
  find_suspended id (suspended (run_event mintPubkey verify w ev)) = Some k.
Proof.
  intros Hev Hk. destruct ev as [id' q now | id' fetched | id' req now]; simpl.
  - destruct (rooms_begin mintPubkey (srv w) q now); simpl; [exact Hk|].
    apply find_suspended_snoc. exact Hk.
  - destruct (find_suspended id' (suspended w)) as [[m now]|]; [|exact Hk].
    destruct (rooms_resume (srv w) m now fetched). simpl.
    rewrite find_suspended_remove; [exact Hk | exact Hev].
  - destruct (post_display_name verify (srv w) req now). simpl. exact Hk.
Qed.

(** A snapshot is stamped with the time at which its request arrived, not
    the time at which its accounts arrived: whatever is served or stored
    between the two, when the accounts of a waiting request arrive and the
    pipeline succeeds, the result replaces the stored snapshot, newer or
    not, under the mint and the clock value the request started with; the
    names are those of the registry at arrival. *)
Theorem snapshot_stamped_with_request_time
    (mintPubkey : PublicKey) (verify : list byte -> list byte -> list byte -> bool)
    (w : world) (id : nat) (mintBase58 : jsstring) (now : Z) (evs : list event)
    (accounts : list account_data) (rooms : list room) :
  find_suspended id (suspended w) = Some (mintBase58, now) ->
  Forall (fun ev => ~ settles id ev) evs ->
  compute_rooms (db (srv (run_events mintPubkey verify w evs))) accounts = Ok rooms ->
  srv (run_event mintPubkey verify (run_events mintPubkey verify w evs)
         (AccountsSettled id (Ok accounts)))
  = {| roomsCache := Some rooms; roomsCacheMint := Some mintBase58;
       roomsCacheUpdatedAt := now;
       db := db (srv (run_events mintPubkey verify w evs)) |}.
Proof.
  intros Hk Hevs.
  assert (find_suspended id (suspended (run_events mintPubkey verify w evs))
          = Some (mintBase58, now)) as Hk'.
  { unfold run_events. revert w Hk. induction Hevs as [|ev evs Hev _ IH]; intros w Hk; simpl.
    - exact Hk.
    - apply IH. apply run_event_keeps_suspended; assumption. }
  intros Hc. simpl. rewrite Hk'. unfold rooms_resume. simpl. rewrite Hc. reflexivity.
Qed.

Lemma snapshot_stamped_with_request_time_witness :
  srv (run_events the_mint toy_verify initial_world
         [RoomsRequest 1 None 1000; RoomsRequest 2 None 5000;
          AccountsSettled 2 (Ok tie_accounts); NameRequest 3 (alice_request 1) 6000;
          AccountsSettled 1 (Ok example_accounts)])
  = {| roomsCache :=
         Some [{| walletAddress := address W1;
                  roomNumber := hashToRoom (address W1) MAX_ROOMS;
                  role := Landlord; balance := lit "800";
                  displayName := Some (lit "alice") |}];
       roomsCacheMint := Some (toBase58 the_mint);
       roomsCacheUpdatedAt := 1000;
       db := {[ address W1 := {| name := lit "alice"; updated_at := 6000 |} ]} |}.
Proof.
  assert (compute_rooms
            (db (srv (run_events the_mint toy_verify
                        (run_events the_mint toy_verify initial_world
                           [RoomsRequest 1 None 1000])
                        [RoomsRequest 2 None 5000; AccountsSettled 2 (Ok tie_accounts);
                         NameRequest 3 (alice_request 1) 6000])))
            example_accounts
          = Ok [{| walletAddress := address W1;
                   roomNumber := hashToRoom (address W1) MAX_ROOMS;
                   role := Landlord; balance := lit "800";
                   displayName := Some (lit "alice") |}]) as Hc
    by (vm_compute; reflexivity).
  pose proof (snapshot_stamped_with_request_time the_mint toy_verify
                (run_events the_mint toy_verify initial_world [RoomsRequest 1 None 1000])
                1 (toBase58 the_mint) 1000
                [RoomsRequest 2 None 5000; AccountsSettled 2 (Ok tie_accounts);
                 NameRequest 3 (alice_request 1) 6000]
                example_accounts _ eq_refl
                ltac:(repeat constructor; simpl; try tauto; discriminate) Hc) as E.
  etransitivity; [exact E|]. f_equal; vm_compute; reflexivity.
Defined.

(** ** The two revisions *)

(** With nothing stored, the handler with the cache lists exactly the
    rooms that the earlier revision lists, flagged [cached: false], and
    fails exactly when the earlier revision fails; the earlier revision
    answers every failure with 500, the later rate-limited ones with 503. *)
Theorem cold_cache_agrees_with_earlier_revision
    (mintPubkey : PublicKey) (rpc : jsstring -> result (list account_data))
    (st : server) (query_mint : option jsstring) (now : Z) :
  roomsCache st = None ->
  let old := get_rooms_v0 mintPubkey rpc (db st) query_mint in
  let new := (get_rooms mintPubkey rpc st query_mint now).2 in
  (forall rooms, old = {| status0 := 200; payload0 := Rooms0 rooms |}
                 <-> new = json (RoomsBody rooms false))
  /\ (old = {| status0 := 500; payload0 := Error0 "Failed to load rooms" |}
      <-> status new = 500 \/ status new = 503).
Proof.
  intros Hcold old new. subst old new.
  unfold get_rooms_v0, get_rooms, rooms_begin, cache_fresh. rewrite Hcold.
  destruct (requested_mint mintPubkey query_mint) as [mint|e]; simpl.
  - unfold rooms_resume.
    destruct (rpc (toBase58 mint)) as [accounts|e]; simpl;
      [destruct (compute_rooms (db st) accounts) as [rooms0|e]; simpl|].
    + split.
      * intros rooms. split; intros [= ->]; reflexivity.
      * split; [discriminate | intros [H|H]; discriminate H].
    + unfold rooms_catch. destruct (_ || _); simpl; split;
        try (intros rooms; split; discriminate); split; auto.
    + unfold rooms_catch. destruct (_ || _); simpl; split;
        try (intros rooms; split; discriminate); split; auto.
  - unfold rooms_catch. destruct (_ || _); simpl; split;
      try (intros rooms; split; discriminate); split; auto.
Qed.

Lemma cold_cache_agrees_with_earlier_revision_witness :
  get_rooms_v0 the_mint example_rpc ∅ None
  = {| status0 := 200; payload0 := Rooms0 example_rooms |}
  /\ status (get_rooms the_mint failing_rpc initial_server None 1000).2 = 503.
Proof.
  pose proof (cold_cache_agrees_with_earlier_revision the_mint example_rpc
                initial_server None 1000 eq_refl) as H.
  pose proof (cold_cache_agrees_with_earlier_revision the_mint failing_rpc
                initial_server None 1000 eq_refl) as H'.
  cbv zeta in H, H'. destruct H as [H _]. destruct H' as [_ H'].
  split.
  - apply H. vm_compute. reflexivity.
  - destruct (proj1 H') as [E|E]; [vm_compute; reflexivity | | exact E].
    vm_compute in E. discriminate E.
Defined.

(** ** Owners and their addresses *)

Lemma of_digits_snoc (base : Z) (ds : list Z) (d : Z) :
  of_digits base (ds ++ [d]) = of_digits base ds * base + d.
Proof. unfold of_digits. rewrite fold_left_app. reflexivity. Qed.

Lemma to_digits_aux_spec (base : Z) (fuel : nat) (n : Z) (acc : list Z) :
  2 <= base -> 0 <= n < 2 ^ Z.of_nat fuel ->
  exists D, to_digits_aux fuel base n acc = D ++ acc
    /\ of_digits base D = n
    /\ (n = 0 -> D = [])
    /\ (0 < n -> exists d D', D = d :: D' /\ d <> 0)
    /\ Forall (fun d => 0 <= d < base) D.
Proof.
  intros Hbase. revert n acc. induction fuel as [|fuel IH]; intros n acc Hn.
  - exists []. simpl in *. assert (n = 0) by lia. subst n.
    repeat split; try reflexivity; [lia | constructor].
  - simpl. destruct (Z.leb_spec n 0) as [Hz|Hpos].
    + exists []. assert (n = 0) by lia. subst n.
      repeat split; try reflexivity; [lia | constructor].
    + assert (0 <= n / base < 2 ^ Z.of_nat fuel) as Hdiv.
      { split; [apply Z.div_pos; lia|].
        apply Z.div_lt_upper_bound; [lia|].
        rewrite Nat2Z.inj_succ, Z.pow_succ_r in Hn by lia.
        assert (0 < 2 ^ Z.of_nat fuel) by (apply Z.pow_pos_nonneg; lia). nia. }
      destruct (IH (n / base) (n mod base :: acc) Hdiv) as (D & HD & Hval & Hzero & Hhead & Hrange).
      pose proof (Z.mod_pos_bound n base ltac:(lia)) as Hmod.
      exists (D ++ [n mod base]). split; [rewrite HD, <- app_assoc; reflexivity|].
      split; [rewrite of_digits_snoc, Hval; pose proof (Z.div_mod n base ltac:(lia)); lia|].
      split; [lia|]. split.
      * intros _. destruct (Z.eq_dec (n / base) 0) as [E|E].
        -- rewrite (Hzero E). exists (n mod base), []. split; [reflexivity|].
           rewrite Z.mod_small; [lia|]. split; [lia|].
           apply Z.div_small_iff in E; lia.
        -- destruct Hhead as (d & D' & -> & Hd); [lia|].
           exists d, (D' ++ [n mod base]). split; [reflexivity | exact Hd].
      * apply Forall_app. split; [exact Hrange|]. constructor; [exact Hmod | constructor].
Qed.

Lemma to_digits_spec (base n : Z) :
  2 <= base -> 0 <= n ->
  of_digits base (to_digits base n) = n
  /\ (n = 0 -> to_digits base n = [])
  /\ (0 < n -> exists d D', to_digits base n = d :: D' /\ d <> 0)
  /\ Forall (fun d => 0 <= d < base) (to_digits base n).
Proof.
  intros Hbase Hn. unfold to_digits.
  destruct (to_digits_aux_spec base (S (Z.to_nat (Z.log2 n))) n [] Hbase)
    as (D & HD & Hval & Hzero & Hhead & Hrange).
  - split; [exact Hn|]. rewrite Nat2Z.inj_succ, Z2Nat.id by apply Z.log2_nonneg.
    destruct (Z.eq_dec n 0) as [->|]; [reflexivity|].
    apply Z.log2_spec. lia.
  - rewrite HD, app_nil_r. repeat split; assumption.
Qed.

Lemma byte_val_to_uint8 (z : Z) : byte_val (to_uint8 z) = z mod 256.
Proof.
  unfold byte_val, to_uint8. pose proof (Z.mod_pos_bound z 256 ltac:(lia)) as Hm.
  destruct (Byte.of_N (Z.to_N (z mod 256))) as [b|] eqn:E.
  - apply Byte.to_of_N in E. rewrite E. lia.
  - apply Byte.of_N_None_iff in E. lia.
Qed.

Lemma byte_val_inj (a b : byte) : byte_val a = byte_val b -> a = b.
Proof.
  unfold byte_val. intros H. apply N2Z.inj in H.
  pose proof (Byte.of_to_N a) as Ha. pose proof (Byte.of_to_N b) as Hb.
  rewrite H in Ha. congruence.
Qed.

Lemma of_digits_leading_zeros (base : Z) (k : nat) (ds : list Z) :
  of_digits base (repeat 0 k ++ ds) = of_digits base ds.
Proof.
  unfold of_digits. rewrite fold_left_app. f_equal.
  induction k as [|k IH]; simpl; [reflexivity | exact IH].
Qed.

Lemma toBytes_value (pk : PublicKey) :
  0 <= _bn pk -> of_digits 256 (map byte_val (toBytes pk)) = _bn pk.
Proof.
  intros Hn. unfold toBytes.
  destruct (to_digits_spec 256 (_bn pk) ltac:(lia) Hn) as (Hval & _ & _ & Hrange).
  rewrite map_app, map_repeat. change (byte_val "000") with 0.
  rewrite of_digits_leading_zeros, map_map.
  assert (map (fun d => byte_val (to_uint8 d)) (to_digits 256 (_bn pk))
          = to_digits 256 (_bn pk)) as ->; [|exact Hval].
  clear Hval. induction Hrange as [|d D Hd _ IH]; simpl; [reflexivity|].
  rewrite IH, byte_val_to_uint8, Z.mod_small by exact Hd. reflexivity.
Qed.

Lemma alphabet_index (k : nat) :
  (k < 58)%nat -> index_of (nth k ALPHABET 0) ALPHABET = Some (Z.of_nat k).
Proof.
  intros Hk. do 58 (destruct k as [|k]; [vm_compute; reflexivity|]). lia.
Qed.

Lemma count_leading_repeat (z : nat) (rest : jsstring) :
  (forall c rest', rest = c :: rest' -> c <> 49) ->
  count_leading (Z.eqb 49) (repeat 49 z ++ rest) = z.
Proof.
  intros Hrest. induction z as [|z IH]; cbn [repeat app count_leading].
  - destruct rest as [|c rest']; [reflexivity|]. cbn [count_leading].
    destruct (Z.eqb_spec 49 c) as [E|_]; [|reflexivity].
    exfalso. eapply Hrest; [reflexivity | symmetry; exact E].
  - rewrite Z.eqb_refl, IH. reflexivity.
Qed.

Lemma bs58_encode_digits (source : list byte) :
  mapM (fun c => index_of c ALPHABET)
    (drop (count_leading (Z.eqb 49) (bs58_encode source)) (bs58_encode source))
  = Some (to_digits 58 (of_digits 256 (map byte_val source)))
  /\ count_leading (Z.eqb 49) (bs58_encode source) = count_leading is_zero_byte source.
Proof.
  unfold bs58_encode.
  set (N := of_digits 256 (map byte_val source)).
  set (z := count_leading is_zero_byte source).
  assert (0 <= N) as HN.
  { pose proof (of_digits_bytes_bound source 0 (Z.le_refl 0)) as [H _]. exact H. }
  destruct (to_digits_spec 58 N ltac:(lia) HN) as (_ & Hzero & Hhead & Hrange).
  assert (forall d, 0 <= d < 58 ->
            index_of (nth (Z.to_nat d) ALPHABET 0) ALPHABET = Some d) as Halpha.
  { intros d Hd. rewrite alphabet_index by lia. f_equal. lia. }
  assert (count_leading (Z.eqb 49)
            (repeat 49 z ++ map (fun d => nth (Z.to_nat d) ALPHABET 0) (to_digits 58 N)) = z)
    as Hz.
  { apply count_leading_repeat. intros c rest' Hc.
    destruct (Z.eq_dec N 0) as [E|E].
    - rewrite (Hzero E) in Hc. discriminate Hc.
    - destruct Hhead as (d & D' & HD & Hd); [lia|].
      rewrite HD in Hc, Hrange.
      assert (c = nth (Z.to_nat d) ALPHABET 0) as -> by (cbn [map] in Hc; congruence).
      apply Forall_cons in Hrange as [Hdr _].
      intros E49. pose proof (Halpha d Hdr) as Hi. rewrite E49 in Hi.
      vm_compute in Hi. congruence. }
  split; [|exact Hz].
  rewrite Hz. rewrite <- (repeat_length 49 z) at 1. rewrite drop_app_length.
  apply mapM_Some_2.
  clear Hz Hzero Hhead.
  induction Hrange as [|d D Hd _ IH]; cbn [map]; [constructor|].
  constructor; [apply Halpha; exact Hd | exact IH].
Qed.

Lemma toBase58_inj (pk1 pk2 : PublicKey) :
  0 <= _bn pk1 -> 0 <= _bn pk2 -> toBase58 pk1 = toBase58 pk2 -> pk1 = pk2.
Proof.
  intros H1 H2 E. unfold toBase58 in E.
  destruct (bs58_encode_digits (toBytes pk1)) as [E1 _].
  destruct (bs58_encode_digits (toBytes pk2)) as [E2 _].
  rewrite E, E2 in E1. injection E1 as E1.
  rewrite !toBytes_value in E1 by assumption.
  apply (f_equal (of_digits 58)) in E1.
  rewrite (proj1 (to_digits_spec 58 _ ltac:(lia) H1)) in E1.
  rewrite (proj1 (to_digits_spec 58 _ ltac:(lia) H2)) in E1.
  destruct pk1, pk2. simpl in E1. congruence.
Qed.

Lemma of_digits_bytes_acc (bs : list byte) (acc : Z) :
  fold_left (fun a d => a * 256 + d) (map byte_val bs) acc
  = acc * 256 ^ Z.of_nat (length bs) + of_digits 256 (map byte_val bs).
Proof.
  unfold of_digits. revert acc. induction bs as [|b bs IH]; intros acc.
  - simpl. lia.
  - cbn [map fold_left length]. rewrite IH, (IH (0 * 256 + byte_val b)).
    rewrite Nat2Z.inj_succ, Z.pow_succ_r by lia. ring.
Qed.

Lemma of_digits_bytes_inj (l1 l2 : list byte) :
  length l1 = length l2 ->
  of_digits 256 (map byte_val l1) = of_digits 256 (map byte_val l2) -> l1 = l2.
Proof.
  revert l2. induction l1 as [|x1 l1 IH]; intros [|x2 l2] Hlen E; try discriminate Hlen.
  - reflexivity.
  - injection Hlen as Hlen. unfold of_digits in E. cbn [map fold_left] in E.
    rewrite !of_digits_bytes_acc, Hlen in E.
    pose proof (of_digits_bytes_bound l1 0 (Z.le_refl 0)) as B1.
    pose proof (of_digits_bytes_bound l2 0 (Z.le_refl 0)) as B2.
    fold (of_digits 256 (map byte_val l1)) in B1.
    fold (of_digits 256 (map byte_val l2)) in B2.
    rewrite Hlen in B1.
    pose proof (byte_val_range x1). pose proof (byte_val_range x2).
    assert (byte_val x1 = byte_val x2) as Hx by nia.
    f_equal; [apply byte_val_inj; exact Hx|].
    apply IH; [exact Hlen|]. rewrite Hx in E. lia.
Qed.

(** Records are summed under one wallet exactly when they have one owner:
    for two records of at least 64 bytes, the wallet addresses computed
    from their owner fields are the same string if and only if the owner
    fields, bytes [32,64), are equal byte for byte. *)
Theorem same_wallet_iff_same_owner (data data' : account_data) :
  (64 <= length data)%nat -> (64 <= length data')%nat ->
  owner_wallet data = owner_wallet data' <-> slice 32 64 data = slice 32 64 data'.
Proof.
  intros Hl Hl'. split; [|unfold owner_wallet; intros ->; reflexivity].
  intros E. unfold owner_wallet in E.
  apply toBase58_inj in E; simpl.
  - injection E as E. apply of_digits_bytes_inj; [|exact E].
    unfold slice. rewrite !length_take, !length_drop. lia.
  - apply (of_digits_bytes_bound _ 0 (Z.le_refl 0)).
  - apply (of_digits_bytes_bound _ 0 (Z.le_refl 0)).
Qed.

Lemma same_wallet_iff_same_owner_witness :
  owner_wallet (token_account mintX W1 500) = owner_wallet (token_account W2 W1 300)
  /\ owner_wallet (token_account mintX W1 500) <> owner_wallet (token_account mintX W2 500).
Proof.
  split.
  - apply same_wallet_iff_same_owner; [simpl; lia | simpl; lia | vm_compute; reflexivity].
  - intros E. apply same_wallet_iff_same_owner in E; [|simpl; lia|simpl; lia].
    vm_compute in E. discriminate E.
Defined.

(** ** The mint parameter *)

Lemma of_digits_acc (base : Z) (ds : list Z) (acc : Z) :
  fold_left (fun a d => a * base + d) ds acc
  = acc * base ^ Z.of_nat (length ds) + of_digits base ds.
Proof.
  unfold of_digits. revert acc. induction ds as [|d ds IH]; intros acc.
  - simpl. lia.
  - cbn [fold_left length]. rewrite IH, (IH (0 * base + d)).
    rewrite Nat2Z.inj_succ, Z.pow_succ_r by lia. ring.
Qed.

Lemma of_digits_nonneg (base : Z) (ds : list Z) :
  0 <= base -> Forall (fun d => 0 <= d < base) ds -> 0 <= of_digits base ds.
Proof.
  intros Hb Hds. induction Hds as [|d ds Hd _ IH].
  - reflexivity.
  - unfold of_digits. cbn [fold_left]. rewrite of_digits_acc.
    assert (0 <= base ^ Z.of_nat (length ds)) by (apply Z.pow_nonneg; exact Hb). nia.
Qed.

Lemma to_digits_length (n : Z) (k : nat) :
  0 <= n < 256 ^ Z.of_nat k -> (length (to_digits 256 n) <= k)%nat.
Proof.
  intros Hn. destruct (to_digits_spec 256 n ltac:(lia) ltac:(lia)) as (Hval & Hzero & Hhead & Hrange).
  destruct (Z.eq_dec n 0) as [E|E]; [rewrite (Hzero E); simpl; lia|].
  destruct Hhead as (d & D' & HD & Hd); [lia|].
  rewrite HD in *. apply Forall_cons in Hrange as [Hdr Hrange].
  unfold of_digits in Hval. cbn [fold_left] in Hval. rewrite of_digits_acc in Hval.
  pose proof (of_digits_nonneg 256 D' ltac:(lia) Hrange) as Hnn.
  destruct (decide (length (d :: D') <= k)%nat) as [|Hgt]; [assumption|].
  exfalso. simpl in Hgt.
  assert (256 ^ Z.of_nat k <= 256 ^ Z.of_nat (length D')) by (apply Z.pow_le_mono_r; lia).
  nia.
Qed.

Lemma count_leading_zero_bytes (k : nat) (ds : list Z) :
  Forall (fun d => 0 <= d < 256) ds ->
  (forall d ds', ds = d :: ds' -> d <> 0) ->
  count_leading is_zero_byte (repeat "000"%byte k ++ map to_uint8 ds) = k.
Proof.
  intros Hrange Hhead. induction k as [|k IH]; cbn [repeat app count_leading].
  - destruct ds as [|d ds']; [reflexivity|]. cbn [map count_leading].
    unfold is_zero_byte. rewrite byte_val_to_uint8.
    apply Forall_cons in Hrange as [Hd _]. rewrite Z.mod_small by exact Hd.
    destruct (Z.eqb_spec d 0) as [E|_]; [|reflexivity].
    exfalso. eapply Hhead; [reflexivity | exact E].
  - change (is_zero_byte "000") with true. cbn iota. rewrite IH. reflexivity.
Qed.

Lemma bs58_decode_toBase58 (pk : PublicKey) :
  0 <= _bn pk -> bs58_decode (toBase58 pk) = Ok (toBytes pk).
Proof.
  intros Hn. unfold toBase58, bs58_decode.
  destruct (bs58_encode_digits (toBytes pk)) as [Hd Hz].
  rewrite Hd, Hz, toBytes_value by exact Hn.
  destruct (to_digits_spec 58 (_bn pk) ltac:(lia) Hn) as (-> & _).
  destruct (to_digits_spec 256 (_bn pk) ltac:(lia) Hn) as (_ & Hzero & Hhead & Hrange).
  unfold toBytes at 1. rewrite length_map.
  rewrite count_leading_zero_bytes;
    [unfold toBytes; rewrite length_map; reflexivity | exact Hrange |].
  intros d ds' HD. destruct (Z.eq_dec (_bn pk) 0) as [E|E].
  - rewrite (Hzero E) in HD. discriminate HD.
  - destruct Hhead as (d0 & D' & HD' & Hd0); [lia|]. congruence.
Qed.

Lemma PublicKey_of_string_toBase58 (pk : PublicKey) :
  0 <= _bn pk < 2 ^ 256 -> PublicKey_of_string (toBase58 pk) = Ok pk.
Proof.
  intros Hn. unfold PublicKey_of_string.
  rewrite bs58_decode_toBase58 by lia. simpl.
  assert (length (toBytes pk) = PUBLIC_KEY_LENGTH) as Hlen.
  { unfold toBytes. rewrite length_app, repeat_length, length_map.
    pose proof (to_digits_length (_bn pk) 32 Hn). unfold PUBLIC_KEY_LENGTH. lia. }
  rewrite Hlen, Nat.eqb_refl. simpl.
  unfold PublicKey_of_bytes. rewrite toBytes_value by lia.
  destruct (Z.leb_spec (2 ^ 256) (_bn pk)); [lia|]. destruct pk. reflexivity.
Qed.

(** A public key of 32 bytes survives the round trip through its address:
    a request whose [mint] parameter is the Base58 address of a key is
    resolved to that key and cached under that same string, and naming the
    configured mint in the parameter is the same request as leaving the
    parameter out. *)
Theorem mint_parameter_round_trip
    (mintPubkey : PublicKey) (rpc : jsstring -> result (list account_data))
    (st : server) (now : Z) (pk : PublicKey) :
  0 <= _bn pk < 2 ^ 256 ->
  (toBase58 pk <> [] -> requested_mint mintPubkey (Some (toBase58 pk)) = Ok pk)
  /\ (pk = mintPubkey ->
      get_rooms mintPubkey rpc st (Some (toBase58 pk)) now
      = get_rooms mintPubkey rpc st None now).
Proof.
  intros Hn.
  assert (requested_mint mintPubkey (Some (toBase58 pk))
          = match toBase58 pk with [] => Ok mintPubkey | _ => Ok pk end) as Hreq.
  { unfold requested_mint. pose proof (PublicKey_of_string_toBase58 pk Hn) as Hpk.
    destruct (toBase58 pk) as [|c q]; [reflexivity | exact Hpk]. }
  split.
  - intros Hne. rewrite Hreq. destruct (toBase58 pk); [congruence | reflexivity].
  - intros ->. unfold get_rooms, rooms_begin. rewrite Hreq.
    destruct (toBase58 mintPubkey); reflexivity.
Qed.

Lemma mint_parameter_round_trip_witness :
  requested_mint the_mint (Some (lit "11111111111111111111111111111112")) = Ok {| _bn := 1 |}
  /\ get_rooms the_mint example_rpc warm_server (Some (toBase58 the_mint)) 2000
     = get_rooms the_mint example_rpc warm_server None 2000.
Proof.
  split.
  - destruct (mint_parameter_round_trip the_mint example_rpc warm_server 2000 {| _bn := 1 |})
      as [H _]; [simpl; lia|].
    apply H. vm_compute. discriminate.
  - destruct (mint_parameter_round_trip the_mint example_rpc warm_server 2000 the_mint)
      as [_ H]; [simpl; lia|].
    apply H. reflexivity.
Defined.
